(** * larrecodnn: patch cache, MVA writer, Triton helpers, wire cluster finder

    A shallow embedding of the bookkeeping logic of
    - [nnet::PointIdAlg::bufferPatch]   (Tensorflow/PointIdAlg/PointIdAlg.h),
    - [anab::MVAWriter<N>]              (PointIdAlg/MVAWriter.h),
    - [triton_utils::throwIfError], [triton_utils::warnIfError]
                                        (NuSonic/Triton/triton_utils.cc),
    - [nnet::WireClusterFinder::produce] (WireClusterFinder_module.cc),
    together with the properties the specification states about them.

    Conventions.  [size_t] and [unsigned int] values are integers in [Z]
    (container indices and lengths are [nat]); C [float] is IEEE binary32,
    given by [spec_float] at precision 24; member functions take the object
    and return the updated object; a thrown [cet::exception] and undefined
    behaviour of C++ are separate results of the [outcome] type. *)

From Stdlib Require Import ZArith String List QArith Qcanon Qround Lia.
From Stdlib Require Import SpecFloat DecimalString.
From stdpp Require Import base option list gmap strings numbers sorting.

Local Open Scope Z_scope.

(** ** Effects of the C++ code *)

Module Cpp.

(** [cet::exception(category) << message]. *)
Record exception := Exception { category : string; what : string }.

(** Result of running a member function from a state [S]. *)
Inductive outcome (S A : Type) : Type :=
| Returns (a : A) (s : S)      (* normal return, state after the call *)
| Throws (e : exception) (s : S) (* exception, state when it was thrown *)
| Undefined.                   (* undefined behaviour *)
Arguments Returns {S A} a s.
Arguments Throws {S A} e s.
Arguments Undefined {S A}.

Definition M (S A : Type) : Type := S -> outcome S A.

Definition ret {S A} (a : A) : M S A := fun s => Returns a s.

Definition bind {S A B} (m : M S A) (k : A -> M S B) : M S B :=
  fun s => match m s with
           | Returns a s' => k a s'
           | Throws e s' => Throws e s'
           | Undefined => Undefined
           end.

Definition throw {S A} (e : exception) : M S A := fun s => Throws e s.
Definition undefined {S A} : M S A := fun _ => Undefined.
Definition get {S} : M S S := fun s => Returns s s.
Definition gets {S A} (f : S -> A) : M S A := fun s => Returns (f s) s.
Definition modify {S} (f : S -> S) : M S unit := fun s => Returns tt (f s).

(** [v[i]] on a [std::vector] or through a pointer: no bounds check. *)
Definition deref {S A} (o : option A) : M S A :=
  match o with Some a => ret a | None => undefined end.

(** [for (auto const& x : xs) body(x);] *)
Fixpoint for_each {S A} (xs : list A) (body : A -> M S unit) : M S unit :=
  match xs with
  | [] => ret tt
  | x :: rest => bind (body x) (fun _ => for_each rest body)
  end.

Definition returned {S A} (o : outcome S A) : option A :=
  match o with Returns a _ => Some a | _ => None end.

Definition thrown {S A} (o : outcome S A) : option exception :=
  match o with Throws e _ => Some e | _ => None end.

End Cpp.

Import Cpp.

Declare Scope cpp_scope.
Delimit Scope cpp_scope with cpp.
Notation "x <- m ;; k" := (Cpp.bind m (fun x => k))
  (at level 100, m at next level, right associativity) : cpp_scope.
Notation "m ;;; k" := (Cpp.bind m (fun _ => k))
  (at level 100, right associativity) : cpp_scope.

(** ** IEEE single precision, as far as the patch cache uses it *)

Module Float32.

Definition prec : Z := 24.
Definition emax : Z := 128.

Definition float : Type := spec_float.

(** Integer to [float] conversion (round to nearest, ties to even). *)
Definition of_Z (n : Z) : float := binary_normalize prec emax n 0 false.

Definition div (x y : float) : float := SFdiv prec emax x y.

(** [x == y] on floats: false on NaN, [-0 == +0]. *)
Definition eqb (x y : float) : bool := SFeqb x y.

(** The integral part of a finite float (fraction discarded). *)
Definition trunc (x : float) : option Z :=
  match x with
  | S754_zero _ => Some 0
  | S754_finite s m e =>
      let a := if 0 <=? e then Z.pos m * 2 ^ e else Z.pos m / 2 ^ (- e) in
      Some (if s then - a else a)
  | S754_infinity _ | S754_nan => None
  end.

Definition size_max : Z := 2 ^ 64.

(** [(size_t)x]: defined only when the integral part fits in 64 bits. *)
Definition to_size_t (x : float) : option Z :=
  match trunc x with
  | Some z => if (0 <=? z) && (z <? size_max) then Some z else None
  | None => None
  end.

(** The exact value of a finite float. *)
Definition to_Q (x : float) : option Q :=
  match x with
  | S754_zero _ => Some 0%Q
  | S754_finite s m e =>
      let a := if 0 <=? e then inject_Z (Z.pos m * 2 ^ e)
               else Qmake (Z.pos m) (Z.to_pos (2 ^ (- e))) in
      Some (if s then Qopp a else a)
  | S754_infinity _ | S754_nan => None
  end.

(** The float has no fractional part (true also on zeros, infinities
    and NaN). *)
Definition integral (x : float) : bool :=
  match x with
  | S754_finite _ m e => (0 <=? e) || (Z.pos m mod 2 ^ (- e) =? 0)
  | _ => true
  end.

(** [m * 2^e] is an integer. *)
Definition aligned (m e : Z) : Prop := 0 <= e \/ (2 ^ (- e) | m).

(** The same for a mantissa with its round and sticky bits: below
    exponent 0 nothing has been shifted out. *)
Definition aligned_record (mrs : shr_record) (e : Z) : Prop :=
  0 <= e \/ ((2 ^ (- e) | shr_m mrs) /\ shr_r mrs = false /\ shr_s mrs = false).

(** Decimal literals used in the examples: [m / 2^k]. *)
Definition dyadic (m : Z) (k : Z) : float := binary_normalize prec emax m (- k) false.

End Float32.

(** ** nnet::PointIdAlg: the single-slot patch cache *)

Module PointIdAlg.

Import Float32.

(** [std::vector<std::vector<float>>], wire after wire. *)
Definition Patch : Type := list (list float).

(** One call of an extraction routine of [img::DataProviderAlg], recorded
    so that "the patch was recomputed" can be observed. *)
Inductive View := DownsampledView | OriginalView.

Record Extraction := MkExtraction {
  ex_view : View;
  ex_wire : Z;
  ex_drift : float;
  ex_sizeW : Z;
  ex_sizeD : Z
}.

(** The members that stay fixed while patches are queried.  Those
    inherited from [img::DataProviderAlg] (DataProviderAlg.h is not among
    these sources) are taken as they are used: the downscale switch, the
    drift window (an integer width, converted to [float] by the division)
    and the two routines that fill a patch and report success. *)
Record Members := MkMembers {
  fDownscaleFullView : bool;
  fDriftWindow : Z;
  patchFromDownsampledView : Z -> float -> Z -> Z -> Patch -> bool * Patch;
  patchFromOriginalView : Z -> float -> Z -> Z -> Patch -> bool * Patch;
  fPatchSizeW : Z;
  fPatchSizeD : Z
}.

(** The [mutable] members, and the extraction calls made so far. *)
Record State := MkState {
  fCurrentWireIdx : Z;
  fCurrentScaledDrift : Z;
  fWireDriftPatch : Patch;
  extractions : list Extraction
}.

Definition set_current (wire sd : Z) (s : State) : State :=
  {| fCurrentWireIdx := wire; fCurrentScaledDrift := sd;
     fWireDriftPatch := fWireDriftPatch s; extractions := extractions s |}.

Definition set_patch (p : Patch) (s : State) : State :=
  {| fCurrentWireIdx := fCurrentWireIdx s; fCurrentScaledDrift := fCurrentScaledDrift s;
     fWireDriftPatch := p; extractions := extractions s |}.

Definition log_extraction (c : Extraction) (s : State) : State :=
  {| fCurrentWireIdx := fCurrentWireIdx s; fCurrentScaledDrift := fCurrentScaledDrift s;
     fWireDriftPatch := fWireDriftPatch s; extractions := extractions s ++ [c] |}.

(** [(size_t)(drift / fDriftWindow)] *)
Definition scaledDrift (a : Members) (drift : float) : option Z :=
  to_size_t (div drift (of_Z (fDriftWindow a))).

Definition extract (a : Members) (v : View) (wire : Z) (drift : float) (patch : Patch)
  : M State (bool * Patch) :=
  (modify (log_extraction (MkExtraction v wire drift (fPatchSizeW a) (fPatchSizeD a)));;;
   ret (match v with
        | DownsampledView => patchFromDownsampledView a
        | OriginalView => patchFromOriginalView a
        end wire drift (fPatchSizeW a) (fPatchSizeD a) patch))%cpp.

(** [bool bufferPatch(size_t wire, float drift, std::vector<std::vector<float>>& patch) const]
    The result pairs the returned flag with the contents of [patch]. *)
Definition bufferPatch (a : Members) (wire : Z) (drift : float) (patch : Patch)
  : M State (bool * Patch) :=
  (if fDownscaleFullView a then
     sd <- deref (scaledDrift a drift);;
     s <- get;;
     if (fCurrentWireIdx s =? wire) && (fCurrentScaledDrift s =? sd)
     then ret (true, patch)
     else
       modify (set_current wire sd);;;
       extract a DownsampledView wire drift patch
   else
     s <- get;;
     if (fCurrentWireIdx s =? wire) && eqb (of_Z (fCurrentScaledDrift s)) drift
     then ret (true, patch)
     else
       sd <- deref (to_size_t drift);;
       modify (set_current wire sd);;;
       extract a OriginalView wire drift patch)%cpp.

(** [bool bufferPatch(size_t wire, float drift) const]: the same on the
    algorithm's own buffer [fWireDriftPatch]. *)
Definition bufferPatch_own (a : Members) (wire : Z) (drift : float) : M State bool :=
  (s <- get;;
   r <- bufferPatch a wire drift (fWireDriftPatch s);;
   modify (set_patch (snd r));;;
   ret (fst r))%cpp.

(** The drift half of the test that decides a cache hit, on the stored
    slot: equal bins when downscaled, else the slot compared with the raw
    drift. *)
Definition driftAgrees (a : Members) (slot : Z) (drift : float) : Prop :=
  if fDownscaleFullView a
  then scaledDrift a drift = Some slot
  else eqb (of_Z slot) drift = true.

(** A call is a cache hit when it returns [true] and leaves the state,
    the buffer and the list of extraction calls as they were. *)
Definition is_hit (s : State) (patch : Patch) (o : outcome State (bool * Patch)) : Prop :=
  o = Returns (true, patch) s.

(** The cache-hit identity law at one query: whatever the first call
    did, asking again for the same point is a hit. *)
Definition repeat_is_hit (a : Members) (s : State)
    (wire : Z) (drift : float) (patch : Patch) : Prop :=
  forall r s1,
    bufferPatch a wire drift patch s = Returns r s1 ->
    is_hit s1 (snd r) (bufferPatch a wire drift (snd r) s1).

(** The same for first calls whose extraction failed. *)
Definition repeat_after_failure_is_hit (a : Members) (s : State)
    (wire : Z) (drift : float) (patch : Patch) : Prop :=
  forall p1 s1,
    bufferPatch a wire drift patch s = Returns (false, p1) s1 ->
    is_hit s1 p1 (bufferPatch a wire drift p1 s1).

(** Sample members: an extraction that always fails and leaves the buffer
    alone, window 6, patches of 32 wires by 44 drift bins. *)
Definition failing_extraction : Z -> float -> Z -> Z -> Patch -> bool * Patch :=
  fun _ _ _ _ p => (false, p).

Definition sample (downscale : bool) : Members :=
  {| fDownscaleFullView := downscale; fDriftWindow := 6;
     patchFromDownsampledView := failing_extraction;
     patchFromOriginalView := failing_extraction;
     fPatchSizeW := 32; fPatchSizeD := 44 |}.

Definition fresh : State :=
  {| fCurrentWireIdx := 0; fCurrentScaledDrift := 0;
     fWireDriftPatch := []; extractions := [] |}.

(** The drift 10.5. *)
Definition ten_and_a_half : float := dyadic 21 1.

(** The drift bin read as a floor: the floor of the quotient
    [drift / fDriftWindow], where the code has the conversion to
    [size_t]. *)
Definition floorBin (a : Members) (drift : float) : option Z :=
  Qfloor <$> to_Q (div drift (of_Z (fDriftWindow a))).

(** The same-patch policy with bins read as floors, at one pair of
    queries: after the first query the second is a hit exactly when the
    wires are equal and the drifts agree. *)
Definition same_patch_by_floor (a : Members) (s : State)
    (w1 : Z) (d1 : float) (p1 : Patch) (w2 : Z) (d2 : float) (p2 : Patch) : Prop :=
  forall r1 s1,
    bufferPatch a w1 d1 p1 s = Returns r1 s1 ->
    (is_hit s1 p2 (bufferPatch a w2 d2 p2 s1) <->
       w1 = w2 /\
       (if fDownscaleFullView a
        then floorBin a d1 = floorBin a d2
        else eqb (of_Z (fCurrentScaledDrift s1)) d2 = true)).

End PointIdAlg.

(** ** anab::MVAWriter<N> *)

Module MVAWriter.

(** The element type of the score vectors ([float] in the source) with
    the value [0.0F] used to pre-size a collection. *)
Class Score (score : Type) := zero_score : score.

#[export] Instance float_score : Score Float32.float := S754_zero false.
#[export] Instance Qc_score : Score Qc := 0%Qc.

(** [typeid(T)] as the helpers of [MVAWrapperBase] see it: the hash that
    keys the registry and the product name that goes into instance
    names.  Neither is assumed to determine the type. *)
Record TypeInfo := MkType { getProductHash : Z; getProductName : string }.

(** [art::InputTag], by its encoded form. *)
Record InputTag := MkTag { encode : string }.

(** [anab::MVADescription<N>], as [initOutputs] builds it. *)
Record MVADescription := MkDescription { dataTag : string; outputInstance : string }.

(** [anab::MVAOutput<N>]: the [N] scores of one item. *)
Definition MVAOutput (score : Type) : Type := list score.

(** What [art::Event::put] receives. *)
Inductive Product (score : Type) : Type :=
| OutputProduct (values : list (MVAOutput score)) (instance : string)
| DescriptionProduct (descriptions : list MVADescription) (instance : string).
Arguments OutputProduct {score} values instance.
Arguments DescriptionProduct {score} descriptions instance.

(** What [art::EDProducer::produces] receives. *)
Inductive Declared := DeclareDescriptions (instance : string) | DeclareOutputs (instance : string).

(** The surroundings [saveOutputs] writes to. *)
Record World (score : Type) := MkWorld {
  event : list (Product score);
  cout : list string
}.
Arguments MkWorld {score} event cout.
Arguments event {score} _.
Arguments cout {score} _.

Record MVAWriter (score : Type) := MkWriter {
  (* data initialized for the module life *)
  fProducer : list Declared;
  fInstanceName : string;
  fRegisteredDataTypes : list string;
  fIsDescriptionRegistered : bool;
  (* data collected for each event *)
  fTypeHashToID : gmap Z nat;
  fOutputs : list (list (MVAOutput score));
  fDescriptions : option (list MVADescription)
}.
Arguments MkWriter {score}.
Arguments fProducer {score} _.
Arguments fInstanceName {score} _.
Arguments fRegisteredDataTypes {score} _.
Arguments fIsDescriptionRegistered {score} _.
Arguments fTypeHashToID {score} _.
Arguments fOutputs {score} _.
Arguments fDescriptions {score} _.

Section Writer.

Context {score : Type} `{Score score}.

Abbreviation Writer := (MVAWriter score).

(** [MVAWriter(art::EDProducer* module, const char* name = "")] *)
Definition construct (module : list Declared) (name : string) : Writer :=
  MkWriter module name [] false ∅ [] None.

Definition set_producer (p : list Declared) (w : Writer) : Writer :=
  MkWriter p (fInstanceName w) (fRegisteredDataTypes w) (fIsDescriptionRegistered w)
           (fTypeHashToID w) (fOutputs w) (fDescriptions w).
Definition set_registered (r : list string) (w : Writer) : Writer :=
  MkWriter (fProducer w) (fInstanceName w) r (fIsDescriptionRegistered w)
           (fTypeHashToID w) (fOutputs w) (fDescriptions w).
Definition set_flag (b : bool) (w : Writer) : Writer :=
  MkWriter (fProducer w) (fInstanceName w) (fRegisteredDataTypes w) b
           (fTypeHashToID w) (fOutputs w) (fDescriptions w).
Definition set_ids (m : gmap Z nat) (w : Writer) : Writer :=
  MkWriter (fProducer w) (fInstanceName w) (fRegisteredDataTypes w)
           (fIsDescriptionRegistered w) m (fOutputs w) (fDescriptions w).
Definition set_outputs (o : list (list (MVAOutput score))) (w : Writer) : Writer :=
  MkWriter (fProducer w) (fInstanceName w) (fRegisteredDataTypes w)
           (fIsDescriptionRegistered w) (fTypeHashToID w) o (fDescriptions w).
Definition set_descriptions (d : option (list MVADescription)) (w : Writer) : Writer :=
  MkWriter (fProducer w) (fInstanceName w) (fRegisteredDataTypes w)
           (fIsDescriptionRegistered w) (fTypeHashToID w) (fOutputs w) d.

(** [void clearEventData()] *)
Definition clearEventData (w : Writer) : Writer :=
  set_descriptions None (set_outputs [] (set_ids ∅ w)).

Definition not_initialized (T : TypeInfo) : exception :=
  Exception "MVAWriter" ("MVA not initialized for product " +:+ getProductName T).

(** [template <class T> MVAOutput_ID getProductID() const] *)
Definition getProductID (T : TypeInfo) : M Writer nat :=
  (w <- get;;
   match fTypeHashToID w !! getProductHash T with
   | Some id => ret id
   | None => throw (not_initialized T)
   end)%cpp.

(** [template <class T> void produces_using()] *)
Definition produces_using (T : TypeInfo) : M Writer unit :=
  (w <- get;;
   (if negb (fIsDescriptionRegistered w)
    then
      modify (fun w => set_producer (fProducer w ++ [DeclareDescriptions (fInstanceName w)]) w);;;
      modify (set_flag true)
    else ret tt);;;
   let dataName := getProductName T in
   modify (fun w => set_producer (fProducer w ++ [DeclareOutputs (fInstanceName w +:+ dataName)]) w);;;
   modify (fun w => set_registered (fRegisteredDataTypes w ++ [dataName]) w))%cpp.

(** [bool descriptionExists(std::string tname)] *)
Definition descriptionExists (w : Writer) (tname : string) : bool :=
  match fDescriptions w with
  | None => false
  | Some ds =>
      let n := fInstanceName w +:+ tname in
      existsb (fun d => String.eqb (outputInstance d) n) ds
  end.

Definition already_initialized (dataName : string) : exception :=
  Exception "MVAWriter" ("MVADescription<N> already initialized for " +:+ dataName).

(** [template <class T> MVAOutput_ID initOutputs(art::InputTag const& dataTag,
     size_t dataSize, std::vector<std::string> const& names)]
    with the template argument [N] first.  The source does not pass
    [names] on to the description. *)
Definition initOutputs (N : nat) (T : TypeInfo)
    (tag : InputTag) (dataSize : nat) (names : list string) : M Writer nat :=
  (let dataHash := getProductHash T in
   let dataName := getProductName T in
   w <- get;;
   match fDescriptions w with
   | None => modify (set_descriptions (Some []))
   | Some _ =>
       if descriptionExists w dataName
       then throw (already_initialized dataName)
       else ret tt
   end;;;
   w <- get;;
   ds <- deref (fDescriptions w);;
   modify (set_descriptions
             (Some (ds ++ [MkDescription (encode tag) (fInstanceName w +:+ dataName)])));;;
   modify (fun w => set_outputs (fOutputs w ++ [[]]) w);;;
   w <- get;;
   let id := (length (fOutputs w) - 1)%nat in
   modify (fun w => set_ids (<[dataHash := id]> (fTypeHashToID w)) w);;;
   (if (dataSize =? 0)%nat then ret tt
    else
      w <- get;;
      outs <- deref (fOutputs w !! id);;
      modify (set_outputs
                (<[id := resize dataSize (replicate N zero_score) outs]> (fOutputs w))));;;
   ret id)%cpp.

(** [initOutputs(dataTag, names)]: the collection starts empty. *)
Definition initOutputs_empty (N : nat) (T : TypeInfo)
    (tag : InputTag) (names : list string) : M Writer nat :=
  initOutputs N T tag 0 names.

(** [void setOutput(MVAOutput_ID id, size_t key, std::array<float, N> const& values)]
    The overloads for [double] and for [std::vector] differ only in the
    conversion done by the assignment of [anab::MVAOutput<N>], which is
    outside these sources. *)
Definition setOutput (id : nat) (key : nat) (values : MVAOutput score) : M Writer unit :=
  (w <- get;;
   outs <- deref (fOutputs w !! id);;
   if (key <? length outs)%nat
   then modify (set_outputs (<[id := <[key := values]> outs]> (fOutputs w)))
   else undefined)%cpp.

(** [void addOutput(MVAOutput_ID id, std::array<float, N> const& values)],
    and likewise its other overloads. *)
Definition addOutput (id : nat) (values : MVAOutput score) : M Writer unit :=
  (w <- get;;
   outs <- deref (fOutputs w !! id);;
   modify (set_outputs (<[id := outs ++ [values]]> (fOutputs w))))%cpp.

(** [for (size_t i = 0; i < N; ++i) vout[i] = src[i];] *)
Fixpoint copy_scores (src : MVAOutput score) (i n : nat) : option (list score) :=
  match n with
  | O => Some []
  | S n' =>
      match src !! i, copy_scores src (S i) n' with
      | Some x, Some rest => Some (x :: rest)
      | _, _ => None
      end
  end.

(** [template <class T> std::array<float, N> getOutput(size_t key) const] *)
Definition getOutput (N : nat) (T : TypeInfo) (key : nat) : M Writer (list score) :=
  (id <- getProductID T;;
   w <- get;;
   outs <- deref (fOutputs w !! id);;
   src <- deref (outs !! key);;
   deref (copy_scores src 0 N))%cpp.

Definition no_description (n : string) : exception :=
  Exception "MVAWriter" ("No MVADescription<N> prepared for type " +:+ n).

Definition length_mismatch : exception :=
  Exception "MVAWriter"
    "MVADescription<N> vector length not equal to the number of MVAOutput<N> vectors".

Definition print_line (line : string) (io : World score) : World score :=
  MkWorld (event io) (cout io ++ [line]).

Definition evt_put (p : Product score) (io : World score) : World score :=
  MkWorld (event io ++ [p]) (cout io).

(** The loop over [i < fOutputs.size()] that puts [fOutputs[i]] under
    the instance name of the [i]-th description. *)
Fixpoint put_outputs (outs : list (list (MVAOutput score))) (ds : list MVADescription)
    (io : World score) : option (World score) :=
  match outs with
  | [] => Some io
  | o :: outs' =>
      match ds with
      | d :: ds' => put_outputs outs' ds' (evt_put (OutputProduct o (outputInstance d)) io)
      | [] => None
      end
  end.

(** [void saveOutputs(art::Event& evt)]; the result is what the event
    and standard output hold afterwards.  [art::Event::put] is taken to
    accept every product. *)
Definition saveOutputs (io : World score) : M Writer (World score) :=
  (w <- get;;
   for_each (fRegisteredDataTypes w)
     (fun n => if descriptionExists w n then ret tt else throw (no_description n));;;
   ds <- deref (fDescriptions w);;
   if negb (length (fOutputs w) =? length ds)%nat
   then throw length_mismatch
   else
     let io := print_line "put..." io in
     io <- deref (put_outputs (fOutputs w) ds io);;
     let io := evt_put (DescriptionProduct ds (fInstanceName w)) io in
     let io := print_line "...done" io in
     modify clearEventData;;;
     ret (print_line "reset ok" io))%cpp.

(** What the event and standard output hold after a successful save. *)
Definition saved (w : Writer) (ds : list MVADescription) io : World score :=
  MkWorld (event io ++ zip_with OutputProduct (fOutputs w) (outputInstance <$> ds)
                    ++ [DescriptionProduct ds (fInstanceName w)])
          (cout io ++ ["put..."; "...done"; "reset ok"]).

(** The type has no entry in the registry of the current event. *)
Definition unregistered (w : Writer) (T : TypeInfo) : Prop :=
  fTypeHashToID w !! getProductHash T = None.

(** "Using an unregistered type is a fatal lookup failure", at one
    call of each of the three operations. *)
Definition lookup_failure_at (w : Writer) (N : nat) (T : TypeInfo)
    (id key : nat) (values : MVAOutput score) : Prop :=
  unregistered w T ->
  thrown (getOutput N T key w) = Some (not_initialized T)
  /\ thrown (setOutput id key values w) = Some (not_initialized T)
  /\ thrown (addOutput id values w) = Some (not_initialized T).

(** What can happen to a writer between two points of one event:
    successful calls of [initOutputs], [setOutput] and [addOutput]. *)
Inductive within_event : Writer -> Writer -> Prop :=
| same_point w : within_event w w
| after_init w w1 w2 N T tag dataSize names id :
    within_event w w1 ->
    initOutputs N T tag dataSize names w1 = Returns id w2 ->
    within_event w w2
| after_set w w1 w2 id key values :
    within_event w w1 ->
    setOutput id key values w1 = Returns tt w2 ->
    within_event w w2
| after_add w w1 w2 id values :
    within_event w w1 ->
    addOutput id values w1 = Returns tt w2 ->
    within_event w w2.

End Writer.

(** Sample data: a writer named "emtrack" for hits, with two pre-sized
    score vectors of width 4; clusters are not registered. *)
Definition hit_type : TypeInfo := MkType 101 "recob::Hit".
Definition cluster_type : TypeInfo := MkType 202 "recob::Cluster".
Definition hit_tag : InputTag := MkTag "linecluster".

Definition declared_writer : MVAWriter Qc :=
  MkWriter [DeclareDescriptions "emtrack"; DeclareOutputs "emtrackrecob::Hit"]
           "emtrack" ["recob::Hit"] true ∅ [] None.

Definition hits_writer : MVAWriter Qc :=
  MkWriter [DeclareDescriptions "emtrack"; DeclareOutputs "emtrackrecob::Hit"]
           "emtrack" ["recob::Hit"] true {[ 101 := 0%nat ]}
           [[ [0; 0; 0; 0]; [0; 0; 0; 0] ]]%Qc
           (Some [MkDescription "linecluster" "emtrackrecob::Hit"]).

Definition empty_world : World Qc := MkWorld [] [].

(** The same writer later in the event: after [setOutput(0, 1, v)],
    [addOutput(0, v)] and an [initOutputs] for clusters with an empty
    collection. *)
Definition cluster_tag : InputTag := MkTag "trajcluster".

Definition busy_writer : MVAWriter Qc :=
  MkWriter [DeclareDescriptions "emtrack"; DeclareOutputs "emtrackrecob::Hit"]
           "emtrack" ["recob::Hit"] true (<[ 202 := 1%nat ]> {[ 101 := 0%nat ]})
           [[ [0; 0; 0; 0]; [1; 0; 0; 0]; [1; 0; 0; 0] ]; []]%Qc
           (Some [MkDescription "linecluster" "emtrackrecob::Hit";
                  MkDescription "trajcluster" "emtrackrecob::Cluster"]).

End MVAWriter.

(** ** Accumulated scores: the [getOutput] overloads over a list of items *)

Module MVAAccumulate.

Import MVAWriter.

(** [art::Ptr<T>]: position in the source collection, and the item. *)
Record Ptr (T : Type) := MkPtr { key : nat; pointee : T }.
Arguments MkPtr {T} key pointee.
Arguments key {T} _.
Arguments pointee {T} _.

Definition vadd (a b : list Qc) : list Qc := zip_with Qcplus a b.
Definition vscale (c : Qc) (v : list Qc) : list Qc := Qcmult c <$> v.
Definition vdiv (v : list Qc) (c : Qc) : list Qc := (fun x => x / c)%Qc <$> v.
Definition Qc_of_nat (n : nat) : Qc := Q2Qc (inject_Z (Z.of_nat n)).

Fixpoint sum_scores (keys : list nat) (outs : list (list Qc)) (acc : list Qc)
  : option (list Qc) :=
  match keys with
  | [] => Some acc
  | k :: keys' =>
      match outs !! k with
      | Some v => sum_scores keys' outs (vadd acc v)
      | None => None
      end
  end.

Fixpoint weighted_sum (keys : list nat) (weights : list Qc) (outs : list (list Qc))
    (acc : list Qc) (totw : Qc) : option (list Qc * Qc) :=
  match keys with
  | [] => Some (acc, totw)
  | k :: keys' =>
      match weights, outs !! k with
      | wgt :: weights', Some v =>
          weighted_sum keys' weights' outs (vadd acc (vscale wgt v)) (totw + wgt)%Qc
      | _, _ => None
      end
  end.

(** Modelled from the spec: [MVAWrapperBase::pAccumulate(items, outs)]
    (MVAWrapperBase.h is not among the sources): the unweighted
    arithmetic mean of the items' score vectors, the all-zero vector for
    an empty list; scores are exact rationals. *)
Definition pAccumulate {T} (N : nat) (items : list (Ptr T)) (outs : list (list Qc))
  : option (list Qc) :=
  match items with
  | [] => Some (replicate N 0%Qc)
  | _ =>
      acc ← sum_scores (key <$> items) outs (replicate N 0%Qc);
      Some (vdiv acc (Qc_of_nat (length items)))
  end.

(** Modelled from the spec: [MVAWrapperBase::pAccumulate(items, weights,
    outs)] (not among the sources): the mean weighted by externally
    supplied per-item weights. *)
Definition pAccumulate_weights {T} (N : nat) (items : list (Ptr T)) (weights : list Qc)
    (outs : list (list Qc)) : option (list Qc) :=
  match items with
  | [] => Some (replicate N 0%Qc)
  | _ =>
      '(acc, totw) ← weighted_sum (key <$> items) weights outs (replicate N 0%Qc) 0%Qc;
      Some (vdiv acc totw)
  end.

(** Modelled from the spec: [MVAWrapperBase::pAccumulate(items, fweight,
    outs)] (not among the sources), for a weighting function of the item
    and for one of the [art::Ptr]: the weight is evaluated per item. *)
Definition pAccumulate_fweight {T} (N : nat) (items : list (Ptr T)) (fweight : T -> Qc)
    (outs : list (list Qc)) : option (list Qc) :=
  pAccumulate_weights N items ((fun p => fweight (pointee p)) <$> items) outs.

Definition pAccumulate_fweight_ptr {T} (N : nat) (items : list (Ptr T))
    (fweight : Ptr T -> Qc) (outs : list (list Qc)) : option (list Qc) :=
  pAccumulate_weights N items (fweight <$> items) outs.

Section GetOutput.

Context {X : Type}.
Variable N : nat.
Variable T : TypeInfo.

(** [*(fOutputs[getProductID<T>()])] *)
Definition outputs_of : M (MVAWriter Qc) (list (list Qc)) :=
  (id <- getProductID T;;
   w <- get;;
   deref (fOutputs w !! id))%cpp.

(** [getOutput(std::vector<art::Ptr<T>> const& items)] *)
Definition getOutput_items (items : list (Ptr X)) : M (MVAWriter Qc) (list Qc) :=
  (outs <- outputs_of;; deref (pAccumulate N items outs))%cpp.

(** [getOutput(items, std::vector<float> const& weights)] *)
Definition getOutput_weights (items : list (Ptr X)) (weights : list Qc)
  : M (MVAWriter Qc) (list Qc) :=
  (outs <- outputs_of;; deref (pAccumulate_weights N items weights outs))%cpp.

(** [getOutput(items, std::function<float (T const&)> fweight)] *)
Definition getOutput_fweight (items : list (Ptr X)) (fweight : X -> Qc)
  : M (MVAWriter Qc) (list Qc) :=
  (outs <- outputs_of;; deref (pAccumulate_fweight N items fweight outs))%cpp.

(** [getOutput(items, std::function<float (art::Ptr<T> const&)> fweight)] *)
Definition getOutput_fweight_ptr (items : list (Ptr X)) (fweight : Ptr X -> Qc)
  : M (MVAWriter Qc) (list Qc) :=
  (outs <- outputs_of;; deref (pAccumulate_fweight_ptr N items fweight outs))%cpp.

End GetOutput.

(** Sample data: two hits with scores [0.2, 0.8] and [0.6, 0.4]. *)
Definition fOutputs_scored : list (list Qc) :=
  [ [Q2Qc (1 # 5); Q2Qc (4 # 5)]; [Q2Qc (3 # 5); Q2Qc (2 # 5)] ].

Definition scored_writer : MVAWriter Qc :=
  MkWriter [DeclareDescriptions "emtrack"; DeclareOutputs "emtrackrecob::Hit"]
           "emtrack" ["recob::Hit"] true {[ 101 := 0%nat ]}
           [fOutputs_scored]
           (Some [MkDescription "linecluster" "emtrackrecob::Hit"]).

Definition two_hits : list (Ptr unit) := [MkPtr 0 tt; MkPtr 1 tt].

End MVAAccumulate.

(** ** triton_utils: turning a Triton client error into an exception or a warning *)

Module triton_utils.

(** [nvidia::inferenceserver::client::Error], as far as it is used:
    [IsOk()] and what [operator<<] prints. *)
Record Error := MkError { IsOk : bool; shown : string }.

(** A message given to [MF_LOG_WARNING(category)]. *)
Record Warning := MkWarning { warning_category : string; warning_text : string }.

(** The message logger. *)
Definition Logger : Type := list Warning.

Definition failure (err : Error) (msg : string) : exception :=
  Exception "TritonServerFailure" (msg +:+ ": " +:+ shown err).

Definition warning (err : Error) (msg : string) : Warning :=
  MkWarning "TritonServerWarning" (msg +:+ ": " +:+ shown err).

(** [void throwIfError(const Error& err, std::string_view msg)] *)
Definition throwIfError (err : Error) (msg : string) : M Logger unit :=
  if negb (IsOk err) then throw (failure err msg) else ret tt.

(** [bool warnIfError(const Error& err, std::string_view msg)] *)
Definition warnIfError (err : Error) (msg : string) : M Logger bool :=
  ((if negb (IsOk err)
    then modify (fun log => log ++ [warning err msg])
    else ret tt);;;
   ret (IsOk err))%cpp.

End triton_utils.

(** ** nnet::WireClusterFinder *)

Module WireClusterFinder.

(** A range of [recob::Wire::RegionsOfInterest_t]; its samples are not
    looked at. *)
Record Range := MkRange { begin_index : Z; end_index : Z }.

(** [recob::Wire], as far as [produce] reads it: channel
    ([raw::ChannelID_t], unsigned 32 bit), view ([geo::View_t]) and the
    regions of interest. *)
Record Wire := MkWire { Channel : Z; View : Z; SignalROI : list Range }.

(** [art::Ptr<recob::Wire>] *)
Record WirePtr := MkWirePtr { ptr_key : nat; target : Wire }.

(** [typedef std::pair<int, geo::View_t> ApaView] *)
Definition ApaView : Type := Z * Z.

(** The event: the wire collections it holds by producer label and the
    wire collections put into it. *)
Record Event := MkEvent {
  wires_by_label : gmap string (list Wire);
  put_wires : list (list Wire)
}.

Record Env := MkEnv { evt : Event; out : list string }.

(** The members of the module that [produce] reads. *)
Record Finder := MkFinder {
  fWireProducerLabel : string;
  fLogLevel : Z;
  fNChanPerApa : Z
}.

Definition to_unsigned (x : Z) : Z := x mod 2 ^ 32.
Definition to_int (x : Z) : Z := (x + 2 ^ 31) mod 2 ^ 32 - 2 ^ 31.

Definition endl : string := String (Ascii.ascii_of_nat 10) EmptyString.
Definition show_int (x : Z) : string := NilZero.string_of_int (Z.to_int x).

Definition say (text : string) : M Env unit :=
  modify (fun io => MkEnv (evt io) (out io ++ [text])).

(** [e.put(std::move(outwires))] *)
Definition e_put (ws : list Wire) : M Env unit :=
  modify (fun io =>
    MkEnv (MkEvent (wires_by_label (evt io)) (put_wires (evt io) ++ [ws])) (out io)).

(** [e.getByLabel(label, handle)] followed by [art::fill_ptr_vector];
    the list stays empty when the label is not found. *)
Definition fill_ptr_vector (ws : list Wire) : list WirePtr := imap MkWirePtr ws.

Definition getWires (label : string) : M Env (list WirePtr) :=
  (io <- get;;
   ret (match wires_by_label (evt io) !! label with
        | Some ws => fill_ptr_vector ws
        | None => []
        end))%cpp.

(** [ApaView GetApaView(art::Ptr<recob::Wire>& wire)]: the unsigned
    division [chan / fNChanPerApa], undefined for a zero divisor. *)
Definition GetApaView (m : Finder) (wire : WirePtr) : M Env ApaView :=
  let chan := to_unsigned (Channel (target wire)) in
  let per_apa := to_unsigned (fNChanPerApa m) in
  if per_apa =? 0 then undefined
  else ret (to_int (chan / per_apa), View (target wire)).

(** Order and equality of the keys of [std::map<ApaView, ...>]. *)
Definition apa_ltb (a b : ApaView) : bool :=
  (a.1 <? b.1) || ((a.1 =? b.1) && (a.2 <? b.2)).
Definition apa_eqb (a b : ApaView) : bool := (a.1 =? b.1) && (a.2 =? b.2).

(** [map[k].push_back(x)] on a map kept in key order. *)
Fixpoint push_back (k : ApaView) (x : WirePtr) (m : list (ApaView * list WirePtr))
  : list (ApaView * list WirePtr) :=
  match m with
  | [] => [(k, [x])]
  | (k', v) :: m' =>
      if apa_eqb k k' then (k', v ++ [x]) :: m'
      else if apa_ltb k k' then (k, [x]) :: (k', v) :: m'
      else (k', v) :: push_back k x m'
  end.

Fixpoint insert_by (before : WirePtr -> WirePtr -> bool) (x : WirePtr) (l : list WirePtr) : list WirePtr :=
  match l with
  | [] => [x]
  | y :: l' => if before y x then y :: insert_by before x l' else x :: y :: l'
  end.

(** [void SortWirePtrByChannel(std::vector<art::Ptr<recob::Wire>>& vec, bool increasing)];
    [std::sort] leaves the order of wires of equal channel open, an
    insertion sort stands for it. *)
Definition SortWirePtrByChannel (vec : list WirePtr) (increasing : bool) : list WirePtr :=
  if increasing
  then foldr (insert_by (fun a b => Channel (target a) <? Channel (target b))) [] vec
  else foldr (insert_by (fun a b => Channel (target a) >? Channel (target b))) [] vec.

Definition show_channels (vec : list WirePtr) : string :=
  foldr (fun p rest => show_int (Channel (target p)) +:+ ", " +:+ rest) "" vec.

Definition show_ranges (rs : list Range) : string :=
  foldr (fun r rest =>
           "(" +:+ show_int (to_int (begin_index r)) +:+ ", "
               +:+ show_int (to_int (end_index r)) +:+ "), " +:+ rest) "" rs.

(** [Form] with [%d]: the channel is printed as an [int]. *)
Definition show_rois (vec : list WirePtr) : string :=
  foldr (fun p rest =>
           "channel " +:+ show_int (to_int (Channel (target p))) +:+ " :"
                      +:+ show_ranges (SignalROI (target p)) +:+ rest) "" vec.

(** [void PrintWirePtrByChannel(std::vector<art::Ptr<recob::Wire>>& vec)] *)
Definition PrintWirePtrByChannel (vec : list WirePtr) : M Env unit :=
  (say ("print channels === " +:+ endl);;;
   say (show_channels vec);;;
   say ("  print channel ROI" +:+ endl);;;
   say (show_rois vec);;;
   say endl)%cpp.

(** The pre-filter loop: wires without a region of interest are skipped,
    the others are filed under their (APA, view). *)
Fixpoint group_wires (m : Finder) (wirelist : list WirePtr)
    (apaViewWirePtrVec : list (ApaView * list WirePtr))
  : M Env (list (ApaView * list WirePtr)) :=
  match wirelist with
  | [] => ret apaViewWirePtrVec
  | wire :: rest =>
      if (length (SignalROI (target wire)) =? 0)%nat
      then group_wires m rest apaViewWirePtrVec
      else (apaView <- GetApaView m wire;;
            group_wires m rest (push_back apaView wire apaViewWirePtrVec))%cpp
  end.

(** The body of the loop over the map: optional printing, then the sort
    by increasing channel. *)
Definition sort_entry (m : Finder) (p : ApaView * list WirePtr) : M Env (ApaView * list WirePtr) :=
  (vec <- (if 3 <=? fLogLevel m
           then
             say ("Printing Channel " +:+ show_int p.1.1 +:+ ", View "
                                        +:+ show_int p.1.2 +:+ endl);;;
             say ("Decreasing order" +:+ endl);;;
             let v1 := SortWirePtrByChannel p.2 false in
             PrintWirePtrByChannel v1;;;
             say ("Increasing order" +:+ endl);;;
             let v2 := SortWirePtrByChannel v1 true in
             PrintWirePtrByChannel v2;;;
             ret v2
           else ret p.2);;
   ret (p.1, SortWirePtrByChannel vec true))%cpp.

Fixpoint sort_entries (m : Finder) (entries : list (ApaView * list WirePtr))
  : M Env (list (ApaView * list WirePtr)) :=
  match entries with
  | [] => ret []
  | p :: rest =>
      (p' <- sort_entry m p;;
       rest' <- sort_entries m rest;;
       ret (p' :: rest'))%cpp
  end.

(** [void produce(art::Event& e)] *)
Definition produce (m : Finder) : M Env unit :=
  (wirelist <- getWires (fWireProducerLabel m);;
   (if 3 <=? fLogLevel m
    then
      say ("==================================================" +:+ endl);;;
      say ("WireProducerLabel: " +:+ fWireProducerLabel m +:+ endl)
    else ret tt);;;
   let outwires : list Wire := [] in
   apaViewWirePtrVec <- group_wires m wirelist [];;
   _ <- sort_entries m apaViewWirePtrVec;;
   e_put outwires)%cpp.

(** A sample event: three wires under the label ["wclsdatanfsp"], two of
    them with a region of interest. *)
Definition sample_wires : list Wire :=
  [ MkWire 2561 0 [MkRange 10 20]; MkWire 7 2 []; MkWire 5 0 [MkRange 3 9; MkRange 40 44] ].

Definition sample_world : Env :=
  MkEnv (MkEvent {[ "wclsdatanfsp" := sample_wires ]} []) [].

Definition sample_finder (loglevel per_apa : Z) : Finder :=
  MkFinder "wclsdatanfsp" loglevel per_apa.

(** A computation that always returns and leaves the event alone (it may
    write to standard output). *)
Definition keeps_event {A} (c : M Env A) : Prop :=
  forall io, exists a io', c io = Returns a io' /\ evt io' = evt io.

(** A computation that returns after adding exactly the collection [ws]
    to the event. *)
Definition puts_one (ws : list Wire) (c : M Env unit) : Prop :=
  forall io, exists io',
    c io = Returns tt io'
    /\ put_wires (evt io') = put_wires (evt io) ++ [ws]
    /\ wires_by_label (evt io') = wires_by_label (evt io).

End WireClusterFinder.


(** ** Successive patch queries *)

Module PatchQueries.

Import Float32 PointIdAlg.

(** Calls of [bufferPatch(wire, drift)] on the algorithm's own buffer,
    point after point. *)
Definition query_all (a : Members) (points : list (Z * float)) : M State unit :=
  for_each points (fun point => (_ <- bufferPatch_own a point.1 point.2;; ret tt)%cpp).

(** The point lies on [wire], in the drift bin [sd]. *)
Definition in_cell (a : Members) (wire sd : Z) (point : Z * float) : Prop :=
  point.1 = wire /\ scaledDrift a point.2 = Some sd.

(** The cache is positioned at [wire] and [sd]. *)
Definition at_cell (wire sd : Z) (s : State) : bool :=
  (fCurrentWireIdx s =? wire) && (fCurrentScaledDrift s =? sd).

(** The state after the one extraction made for [point] from [s]. *)
Definition extracted (a : Members) (wire sd : Z) (drift : float) (s : State) : State :=
  set_patch
    (patchFromDownsampledView a wire drift (fPatchSizeW a) (fPatchSizeD a)
       (fWireDriftPatch s)).2
    (log_extraction
       (MkExtraction DownsampledView wire drift (fPatchSizeW a) (fPatchSizeD a))
       (set_current wire sd s)).

End PatchQueries.

(** ** The writer over one event: states it can be in, and whole passes *)

Module MVAWriterEvent.

Import MVAWriter.

Section Event.

Context {score : Type} `{Score score}.

(** The per-event members as the constructor and [clearEventData] leave
    them. *)
Definition idle (w : MVAWriter score) : Prop :=
  fTypeHashToID w = ∅ /\ fOutputs w = [] /\ fDescriptions w = None.

(** A writer as it is found in the course of an event. *)
Definition in_event (w : MVAWriter score) : Prop :=
  exists w0, idle w0 /\ within_event w0 w.

(** What the members promise each other during an event: one output
    collection per description, and every registered index in range. *)
Definition consistent (w : MVAWriter score) : Prop :=
  length (fOutputs w) = length (default [] (fDescriptions w))
  /\ map_Forall (fun _ id => (id < length (fOutputs w))%nat) (fTypeHashToID w).

(** [produces_using<T>()] for each type of a list, as a module's
    constructor calls it. *)
Definition declare_all (Ts : list TypeInfo) : M (MVAWriter score) unit :=
  for_each Ts produces_using.

(** One pre-sized [initOutputs<T>(tag, dataSize)] per input collection, as
    a module's [produce] calls it. *)
Definition init_all (N : nat) (inputs : list (TypeInfo * InputTag * nat))
  : M (MVAWriter score) unit :=
  for_each inputs
    (fun input => (_ <- initOutputs N input.1.1 input.1.2 input.2 (replicate N "");; ret tt)%cpp).

(** The description and the zero-filled collection [initOutputs] makes for
    one input. *)
Definition description_of (instance : string) (input : TypeInfo * InputTag * nat)
  : MVADescription :=
  MkDescription (encode input.1.2) (instance +:+ getProductName input.1.1).

Definition zeros_of (N : nat) (input : TypeInfo * InputTag * nat) : list (MVAOutput score) :=
  replicate input.2 (replicate N zero_score).

End Event.

End MVAWriterEvent.

(** ** triton_utils::printColl *)

Module triton_printColl.

(** [std::experimental::ostream_joiner] on a string stream: what has been
    written, and whether the next element is the first one. *)
Record Joiner := MkJoiner { written : string; first : bool }.

(** One assignment through the joiner: the delimiter before every element
    but the first, then the element. *)
Definition joiner_put (delim : string) (j : Joiner) (element : string) : Joiner :=
  MkJoiner (written j +:+ (if first j then "" else delim) +:+ element) false.

(** [template <typename C> std::string printColl(const C& coll, const std::string& delim)],
    for a collection given in iteration order and with [show] for the
    [operator<<] of its elements. *)
Definition printColl {C : Type} (show : C -> string) (coll : list C) (delim : string)
  : string :=
  match coll with
  | [] => ""
  | _ => written (fold_left (joiner_put delim) (show <$> coll) (MkJoiner "" true))
  end.

End triton_printColl.

(** ** Grouping and ordering of wires in nnet::WireClusterFinder *)

Module WireGroups.

Import WireClusterFinder.

(** The test of the pre-filter loop: the wire has a region of interest. *)
Definition has_roi (wire : WirePtr) : bool :=
  negb (length (SignalROI (target wire)) =? 0)%nat.

(** The key [GetApaView] computes for a wire when the divisor is not 0. *)
Definition apaViewOf (m : Finder) (wire : WirePtr) : ApaView :=
  (to_int (to_unsigned (Channel (target wire)) / to_unsigned (fNChanPerApa m)),
   View (target wire)).

(** The wires of a list that the loop files under the key [k]. *)
Definition filed_under (m : Finder) (k : ApaView) (wirelist : list WirePtr) : list WirePtr :=
  List.filter (fun wire => has_roi wire && apa_eqb (apaViewOf m wire) k) wirelist.

(** The order of the keys of the map. *)
Definition apa_lt (a b : ApaView) : Prop := apa_ltb a b = true.

(** What the map holds after the pre-filter loop has gone through
    [wirelist]: keys in strictly increasing order, under each key exactly
    the wires filed under it, in the order of the list and at least one,
    and a key for every wire that has a region of interest. *)
Definition grouped (m : Finder) (wirelist : list WirePtr)
    (groups : list (ApaView * list WirePtr)) : Prop :=
  StronglySorted apa_lt groups.*1
  /\ Forall (fun g => g.2 = filed_under m g.1 wirelist /\ g.2 <> []) groups
  /\ (forall wire, wire ∈ wirelist -> has_roi wire = true -> apaViewOf m wire ∈ groups.*1).

(** The order [SortWirePtrByChannel] establishes. *)
Definition by_channel (increasing : bool) (a b : WirePtr) : Prop :=
  if increasing
  then Channel (target a) <= Channel (target b)
  else Channel (target b) <= Channel (target a).

End WireGroups.

(** ** pdsp::CheckCNNScore *)

Module CheckCNNScore.

Import Float32.

(** [recob::Hit], as far as [analyze] reads it.  The charge, the peak time
    and the scores are [float] values stored in vectors of [double]; the
    conversion is exact, so the values are kept as they are. *)
Record Hit := MkHit {
  hit_Channel : Z;
  hit_TPC : Z;
  hit_Plane : Z;
  hit_Wire : Z;
  hit_Integral : float;
  hit_PeakTime : float
}.

(** [anab::MVAReader<recob::Hit, 4>] (lardata, not among these sources),
    by the two members used: the score array of the hit at a key (taken
    as given for every key of the hit collection), and the index of an
    output name, which may throw. *)
Record MVAReader := MkReader {
  reader_getOutput : nat -> list float;
  reader_getIndex : string -> exception + nat
}.

(** The event: its numbers, the hit collections by label, and the reader
    its constructor builds for a label, or the exception it throws. *)
Record Event := MkEvent {
  e_run : Z;
  e_subRun : Z;
  e_event : Z;
  hits_by_label : gmap string (list Hit);
  results_by_label : string -> exception + MVAReader
}.

(** One [ftree->Fill()]: the values of the branches made in [beginJob]. *)
Record Entry := MkEntry {
  t_run : Z;
  t_event : Z;
  t_channel : list Z;
  t_tpc : list Z;
  t_plane : list Z;
  t_wire : list Z;
  t_charge : list float;
  t_peakt : list float;
  t_scores : list (list float)
}.

(** The members of the analyzer; [scores] is the array of four vectors. *)
Record Analyzer := MkAnalyzer {
  fNNetModuleLabel : string;
  fHitsModuleLabel : string;
  fNNOutputs : list string;
  ftree : list Entry;
  run : Z;
  subrun : Z;
  event : Z;
  channel : list Z;
  tpc : list Z;
  plane : list Z;
  wire : list Z;
  charge : list float;
  peakt : list float;
  scores : list (list float)
}.

(** Conversions to [int] and to [short]. *)
Definition to_int (x : Z) : Z := (x + 2 ^ 31) mod 2 ^ 32 - 2 ^ 31.
Definition to_short (x : Z) : Z := (x + 2 ^ 15) mod 2 ^ 16 - 2 ^ 15.

(** The first statements of [analyze]: the event numbers are taken and
    every vector is emptied. *)
Definition start_event (e : Event) (a : Analyzer) : Analyzer :=
  MkAnalyzer (fNNetModuleLabel a) (fHitsModuleLabel a) (fNNOutputs a) (ftree a)
    (to_int (e_run e)) (to_int (e_subRun e)) (to_int (e_event e))
    [] [] [] [] [] [] [[]; []; []; []].

(** The six [push_back] calls for a hit of plane 2. *)
Definition push_hit (hit : Hit) (a : Analyzer) : Analyzer :=
  MkAnalyzer (fNNetModuleLabel a) (fHitsModuleLabel a) (fNNOutputs a) (ftree a)
    (run a) (subrun a) (event a)
    (channel a ++ [to_short (hit_Channel hit)])
    (tpc a ++ [to_short (hit_TPC hit)])
    (plane a ++ [to_short (hit_Plane hit)])
    (wire a ++ [to_short (hit_Wire hit)])
    (charge a ++ [hit_Integral hit])
    (peakt a ++ [hit_PeakTime hit])
    (scores a).

Definition set_scores (s : list (list float)) (a : Analyzer) : Analyzer :=
  MkAnalyzer (fNNetModuleLabel a) (fHitsModuleLabel a) (fNNOutputs a) (ftree a)
    (run a) (subrun a) (event a) (channel a) (tpc a) (plane a) (wire a)
    (charge a) (peakt a) s.

(** What the branches point to. *)
Definition row_of (a : Analyzer) : Entry :=
  MkEntry (run a) (event a) (channel a) (tpc a) (plane a) (wire a)
          (charge a) (peakt a) (scores a).

(** [ftree->Fill()] *)
Definition Fill (a : Analyzer) : Analyzer :=
  MkAnalyzer (fNNetModuleLabel a) (fHitsModuleLabel a) (fNNOutputs a)
    (ftree a ++ [row_of a])
    (run a) (subrun a) (event a) (channel a) (tpc a) (plane a) (wire a)
    (charge a) (peakt a) (scores a).

(** [scores[i].push_back(cnn_out[hitResults.getIndex(fNNOutputs[i])])]:
    the element of the array first, then the index, then the score. *)
Definition push_score (hitResults : MVAReader) (cnn_out : list float)
    (i : nat) (name : string) : M Analyzer unit :=
  (a <- get;;
   column <- deref (scores a !! i);;
   index <- match reader_getIndex hitResults name with
            | inl ex => throw ex
            | inr index => ret index
            end;;
   score <- deref (cnn_out !! index);;
   modify (set_scores (<[i := column ++ [score]]> (scores a))))%cpp.

(** [for (size_t i = 0; i < fNNOutputs.size(); ++i)], from [i] on. *)
Fixpoint push_scores (hitResults : MVAReader) (cnn_out : list float)
    (i : nat) (names : list string) : M Analyzer unit :=
  match names with
  | [] => ret tt
  | name :: rest =>
      (push_score hitResults cnn_out i name;;;
       push_scores hitResults cnn_out (S i) rest)%cpp
  end.

(** The body of the loop over the hits. *)
Definition analyze_hit (hitResults : MVAReader) (hit : nat * Hit) : M Analyzer unit :=
  let cnn_out := reader_getOutput hitResults hit.1 in
  if hit_Plane hit.2 =? 2
  then (modify (push_hit hit.2);;;
        a <- get;;
        push_scores hitResults cnn_out 0 (fNNOutputs a))%cpp
  else ret tt.

(** [e.getByLabel] and [art::fill_ptr_vector]: the hits with their keys,
    none when the label is not found. *)
Definition hitlist_of (e : Event) (label : string) : list (nat * Hit) :=
  match hits_by_label e !! label with
  | Some hits => imap pair hits
  | None => []
  end.

(** [void analyze(art::Event const& e)] *)
Definition analyze (e : Event) : M Analyzer unit :=
  (modify (start_event e);;;
   a <- get;;
   hitResults <- match results_by_label e (fNNetModuleLabel a) with
                 | inl ex => throw ex
                 | inr reader => ret reader
                 end;;
   for_each (hitlist_of e (fHitsModuleLabel a)) (analyze_hit hitResults);;;
   a <- get;;
   match channel a with
   | [] => ret tt
   | _ => modify Fill
   end)%cpp.

(** The hits of plane 2 among those [analyze] loops over. *)
Definition plane2 (e : Event) (label : string) : list (nat * Hit) :=
  List.filter (fun hit => hit_Plane hit.2 =? 2) (hitlist_of e label).

(** All vectors filled per hit have [n] entries: the six columns, and of
    the score columns the first [outputs]; the other score columns are
    empty. *)
Definition aligned_columns (outputs n : nat) (a : Analyzer) : Prop :=
  length (channel a) = n /\ length (tpc a) = n /\ length (plane a) = n
  /\ length (wire a) = n /\ length (charge a) = n /\ length (peakt a) = n
  /\ length (scores a) = 4%nat
  /\ forall i column, scores a !! i = Some column ->
       length column = if (i <? outputs)%nat then n else 0%nat.

(** Nothing but the vectors differs between [a] and [b]. *)
Definition same_job (a b : Analyzer) : Prop :=
  fNNetModuleLabel b = fNNetModuleLabel a /\ fHitsModuleLabel b = fHitsModuleLabel a
  /\ fNNOutputs b = fNNOutputs a /\ ftree b = ftree a
  /\ run b = run a /\ subrun b = subrun a /\ event b = event a.

(** The six hit columns of [b] are those of [a] followed by the values of
    the hits [sel], narrowed to [short] where the column is one. *)
Definition appended (sel : list (nat * Hit)) (a b : Analyzer) : Prop :=
  channel b = channel a ++ ((fun hit => to_short (hit_Channel hit.2)) <$> sel)
  /\ tpc b = tpc a ++ ((fun hit => to_short (hit_TPC hit.2)) <$> sel)
  /\ plane b = plane a ++ ((fun hit => to_short (hit_Plane hit.2)) <$> sel)
  /\ wire b = wire a ++ ((fun hit => to_short (hit_Wire hit.2)) <$> sel)
  /\ charge b = charge a ++ ((fun hit => hit_Integral hit.2) <$> sel)
  /\ peakt b = peakt a ++ ((fun hit => hit_PeakTime hit.2) <$> sel).

(** The reader gives arrays of four scores and knows every output name. *)
Definition serves (hitResults : MVAReader) (outputs : list string) : Prop :=
  (forall key, length (reader_getOutput hitResults key) = 4%nat)
  /\ forall name, name ∈ outputs ->
       exists index, reader_getIndex hitResults name = inr index /\ (index < 4)%nat.

(** A sample: two hits, the second in plane 2, scores for three outputs. *)
Definition sample_reader : MVAReader :=
  MkReader (fun _ => [of_Z 1; of_Z 0; of_Z 0; of_Z 0])
           (fun name =>
              if String.eqb name "el" then inr 0%nat
              else if String.eqb name "inel" then inr 1%nat
              else if String.eqb name "none" then inr 2%nat
              else inl (Exception "MVAReader" name)).

Definition sample_event : Event :=
  MkEvent 1 1 7
    {[ "hitpdune" := [MkHit 100 1 0 20 (of_Z 5) (of_Z 300);
                      MkHit 2000 1 2 40 (of_Z 9) (of_Z 310)] ]}
    (fun _ => inr sample_reader).

Definition sample_analyzer (outputs : list string) : Analyzer :=
  MkAnalyzer "emtrkmichelid:emtrkmichel" "hitpdune" outputs [] 0 0 0 [] [] [] [] [] [] [].

Definition three_outputs : list string := ["el"; "inel"; "none"].
Definition five_outputs : list string := ["el"; "inel"; "none"; "el"; "el"].

(** The states in which the sample event leaves the analyzer: asked for
    the three outputs, and asked for an output the reader does not know. *)
Definition sample_result : Analyzer :=
  Eval vm_compute in
    match analyze sample_event (sample_analyzer three_outputs) with
    | Returns _ b => b
    | _ => sample_analyzer []
    end.

Definition unknown_output_state : Analyzer :=
  Eval vm_compute in
    match analyze sample_event (sample_analyzer ["el"; "michel"]) with
    | Throws _ b => b
    | _ => sample_analyzer []
    end.

End CheckCNNScore.

(** * Properties *)

(** ** Running the monad *)

Ltac run_cpp :=
  unfold Cpp.bind, Cpp.ret, Cpp.get, Cpp.gets, Cpp.modify, Cpp.throw,
         Cpp.undefined, Cpp.deref in *;
  simpl in *.

Lemma app_singleton_neq {A} (l : list A) (x : A) : l ++ [x] <> l.
Proof.
  intros E. apply (f_equal length) in E. rewrite length_app in E. simpl in E. lia.
Qed.

(** ** Integers converted to [float] have no fractional part *)

Module Float32Facts.

Import Float32.

(** Shifting the mantissa right keeps an integer an integer, and shifts
    out only zeros while the exponent is negative. *)
Lemma divide_half (e m : Z) :
  e < 0 -> (2 ^ (- e) | m) -> exists q, m = 2 * q /\ (2 ^ (- (e + 1)) | q).
Proof.
  intros He [k Hk]. exists (k * 2 ^ (- (e + 1))). split.
  - replace (- e) with (Z.succ (- (e + 1))) in Hk by lia.
    rewrite Z.pow_succ_r in Hk by lia. lia.
  - exists k. reflexivity.
Qed.

Lemma shr_1_aligned (mrs : shr_record) (e : Z) :
  aligned_record mrs e -> aligned_record (shr_1 mrs) (e + 1).
Proof.
  intros [He|(Hdiv & Hr & Hs)]; [left; lia|].
  destruct (Z_le_gt_dec 0 e) as [He|He]; [left; lia|].
  destruct mrs as [m r s]. simpl in *. subst r s.
  destruct (divide_half e m ltac:(lia) Hdiv) as (q & Hm & Hq).
  right. destruct m as [|[p|p|]|[p|p|]]; simpl; try lia.
  - repeat split; auto. exists 0. lia.
  - repeat split; auto. replace (Z.pos p) with q by lia. exact Hq.
  - repeat split; auto. replace (Z.neg p) with q by lia. exact Hq.
Qed.

Lemma iter_shr_1_aligned (p : positive) (mrs : shr_record) (e : Z) :
  aligned_record mrs e -> aligned_record (SpecFloat.iter_pos shr_1 p mrs) (e + Z.pos p).
Proof.
  revert mrs e. induction p as [p IH|p IH|]; intros mrs e H; simpl.
  - replace (e + Z.pos p~1) with (e + 1 + Z.pos p + Z.pos p) by lia.
    apply IH, IH, shr_1_aligned, H.
  - replace (e + Z.pos p~0) with (e + Z.pos p + Z.pos p) by lia.
    apply IH, IH, H.
  - apply shr_1_aligned, H.
Qed.

Lemma shr_aligned (mrs : shr_record) (e n : Z) :
  aligned_record mrs e -> aligned_record (fst (shr mrs e n)) (snd (shr mrs e n)).
Proof.
  intros H. unfold shr. destruct n; simpl; auto. apply iter_shr_1_aligned, H.
Qed.

Lemma shr_fexp_aligned (m e : Z) :
  aligned m e ->
  aligned_record (fst (shr_fexp prec emax m e loc_Exact))
                 (snd (shr_fexp prec emax m e loc_Exact)).
Proof.
  intros H. unfold shr_fexp. apply shr_aligned. destruct H as [H|H]; [left; exact H|].
  right. simpl. auto.
Qed.

Lemma round_aligned (mrs : shr_record) (e : Z) :
  aligned_record mrs e ->
  aligned (round_nearest_even (shr_m mrs) (loc_of_shr_record mrs)) e.
Proof.
  intros [H|(Hdiv & Hr & Hs)]; [left; exact H|].
  right. destruct mrs as [m r s]. simpl in *. subst r s. exact Hdiv.
Qed.

Lemma integral_aligned s (m : positive) e :
  aligned (Z.pos m) e -> integral (S754_finite s m e) = true.
Proof.
  intros [H|H]; simpl.
  - apply Z.leb_le in H. rewrite H. reflexivity.
  - apply orb_true_iff. destruct (Z.leb_spec 0 e); [left; reflexivity|right].
    apply Z.eqb_eq. apply Z.mod_divide; [|exact H].
    apply Z.pow_nonzero; lia.
Qed.

Lemma binary_round_aux_integral s m e :
  aligned m e -> integral (binary_round_aux prec emax s m e loc_Exact) = true.
Proof.
  intros H. unfold binary_round_aux.
  pose proof (shr_fexp_aligned m e H) as H1.
  destruct (shr_fexp prec emax m e loc_Exact) as [mrs' e']. simpl in H1.
  pose proof (shr_fexp_aligned _ _ (round_aligned _ _ H1)) as H2.
  destruct (shr_fexp prec emax _ e' loc_Exact) as [mrs'' e'']. simpl in H2.
  destruct (shr_m mrs'') as [|m''|m''] eqn:Hm; try reflexivity.
  destruct (e'' <=? emax - prec); [|reflexivity].
  apply integral_aligned. destruct H2 as [H2|(H2 & _)]; [left; exact H2|right].
  rewrite <- Hm. exact H2.
Qed.

Lemma iter_xO (m d : positive) : Z.pos (Pos.iter xO m d) = Z.pos m * 2 ^ Z.pos d.
Proof.
  induction d as [|d IH] using Pos.peano_ind.
  - simpl. lia.
  - rewrite Pos.iter_succ, Pos2Z.inj_xO, IH, Pos2Z.inj_succ, Z.pow_succ_r by lia. lia.
Qed.

Lemma binary_round_integral s (m : positive) : integral (binary_round prec emax s m 0) = true.
Proof.
  unfold binary_round, shl_align.
  destruct (fexp prec emax (Z.pos (digits2_pos m) + 0) - 0) as [|d|d] eqn:Hd.
  - apply binary_round_aux_integral. left. lia.
  - apply binary_round_aux_integral. left. lia.
  - apply binary_round_aux_integral. right.
    replace (fexp prec emax (Z.pos (digits2_pos m) + 0)) with (Z.neg d) by lia.
    simpl. rewrite iter_xO. exists (Z.pos m). reflexivity.
Qed.

(** [(float)n] is integral. *)
Lemma of_Z_integral (n : Z) : integral (of_Z n) = true.
Proof.
  unfold of_Z, binary_normalize. destruct n; [reflexivity| |]; apply binary_round_integral.
Qed.

(** [==] against a finite float holds for that float only. *)
Lemma eqb_finite_eq (x : float) s m e :
  eqb x (S754_finite s m e) = true -> x = S754_finite s m e.
Proof.
  unfold eqb, SFeqb, SFcompare.
  destruct x as [sx|sx| |sx mx ex]; try discriminate.
  - destruct s; discriminate.
  - destruct sx; discriminate.
  - destruct sx, s; try discriminate.
    + destruct (Z.compare_spec ex e); try discriminate. subst.
      destruct (Pos.compare_cont Eq mx m) eqn:Hc; try discriminate.
      apply Pos.compare_eq in Hc. subst. reflexivity.
    + destruct (Z.compare_spec ex e); try discriminate. subst.
      destruct (Pos.compare_cont Eq mx m) eqn:Hc; try discriminate.
      apply Pos.compare_eq in Hc. subst. reflexivity.
Qed.

(** No integer compares equal to a float with a fractional part. *)
Lemma of_Z_neq_fractional (n : Z) (x : float) :
  integral x = false -> eqb (of_Z n) x = false.
Proof.
  intros Hx. destruct (eqb (of_Z n) x) eqn:E; [|reflexivity].
  destruct x as [sx|sx| |sx mx ex]; try discriminate.
  apply eqb_finite_eq in E. rewrite <- E, of_Z_integral in Hx. discriminate.
Qed.

End Float32Facts.

(** ** The patch cache *)

Module PatchCache.

Import Float32 PointIdAlg.

(** The integral part kept by [(size_t)x] is the floor of the exact
    value of a non-negative float. *)
Lemma to_size_t_floor (x : float) (q : Q) (z : Z) :
  to_Q x = Some q -> (0 <= q)%Q -> to_size_t x = Some z -> z = Qfloor q.
Proof.
  unfold to_size_t, to_Q, trunc.
  destruct x as [sg|sg| |sg m e]; try discriminate.
  - intros [= <-] _ [= <-]. reflexivity.
  - destruct sg.
    + intros [= <-] Hq _. exfalso. revert Hq.
      destruct (0 <=? e) eqn:He; unfold Qle, Qopp, inject_Z; simpl; [|lia].
      apply Z.leb_le in He. pose proof (Z.pow_pos_nonneg 2 e). nia.
    + intros [= <-] _.
      destruct ((0 <=? _) && _); [|discriminate]. intros [= <-].
      destruct (0 <=? e) eqn:He.
      * symmetry. apply Qfloor_Z.
      * apply Z.leb_gt in He. unfold Qfloor.
        rewrite Z2Pos.id; [reflexivity|]. apply Z.pow_pos_nonneg; lia.
Qed.

(** What one call leaves in the cache, hit or miss: the queried wire. *)
Lemma bufferPatch_stores_wire (a : Members) s wire drift patch r s1 :
  bufferPatch a wire drift patch s = Returns r s1 ->
  fCurrentWireIdx s1 = wire.
Proof.
  unfold bufferPatch, extract, scaledDrift. run_cpp.
  destruct (fDownscaleFullView a).
  - destruct (to_size_t _); run_cpp; [|discriminate].
    destruct (_ && _) eqn:E.
    + intros [= <- <-]. apply andb_prop in E as [E _]. lia.
    + intros [= <- <-]. reflexivity.
  - destruct (_ && _) eqn:E.
    + intros [= <- <-]. apply andb_prop in E as [E _]. lia.
    + destruct (to_size_t drift); run_cpp; [|discriminate].
      intros [= <- <-]. reflexivity.
Qed.

(** In downscaled mode the slot holds the drift bin of the last query. *)
Lemma bufferPatch_stores_bin (a : Members) s wire drift patch r s1 :
  fDownscaleFullView a = true ->
  bufferPatch a wire drift patch s = Returns r s1 ->
  scaledDrift a drift = Some (fCurrentScaledDrift s1).
Proof.
  intros Hd. unfold bufferPatch, extract. rewrite Hd. run_cpp.
  destruct (scaledDrift a drift) as [sd|]; run_cpp; [|discriminate].
  destruct (_ && _) eqn:E.
  - intros [= <- <-]. apply andb_prop in E as [_ E]. f_equal. lia.
  - intros [= <- <-]. reflexivity.
Qed.

(** In the other mode it holds the truncated drift after a miss and is
    left alone by a hit. *)
Lemma bufferPatch_stores_truncation (a : Members) s wire drift patch r s1 :
  fDownscaleFullView a = false ->
  bufferPatch a wire drift patch s = Returns r s1 ->
  to_size_t drift = Some (fCurrentScaledDrift s1)
  \/ (s1 = s /\ eqb (of_Z (fCurrentScaledDrift s)) drift = true).
Proof.
  intros Hd. unfold bufferPatch, extract. rewrite Hd. run_cpp.
  destruct (_ && _) eqn:E.
  - intros [= <- <-]. apply andb_prop in E as [_ E]. right. auto.
  - destruct (to_size_t drift); run_cpp; [|discriminate].
    intros [= <- <-]. left. reflexivity.
Qed.

Lemma extraction_changes_state (c : Extraction) (wire sd : Z) (s : State) :
  log_extraction c (set_current wire sd s) <> s.
Proof.
  intros E. apply (f_equal extractions) in E. simpl in E.
  exact (app_singleton_neq _ _ E).
Qed.

(** The hit test: a query is a hit exactly when its wire equals the
    stored wire and its drift agrees with the stored slot. *)
Lemma is_hit_iff (a : Members) s wire drift patch :
  is_hit s patch (bufferPatch a wire drift patch s)
  <-> fCurrentWireIdx s = wire /\ driftAgrees a (fCurrentScaledDrift s) drift.
Proof.
  unfold is_hit, driftAgrees, bufferPatch, extract. run_cpp.
  destruct (fDownscaleFullView a).
  - destruct (scaledDrift a drift) as [sd|]; run_cpp.
    + destruct (_ && _) eqn:E.
      * apply andb_prop in E as [E1 E2]. split; [|reflexivity].
        intros _. split; [lia | f_equal; lia].
      * split.
        -- intros [= _ Hx]. exfalso. exact (extraction_changes_state _ _ _ _ Hx).
        -- intros [E1 [= E2]]. apply andb_false_iff in E. lia.
    + split; [discriminate | intros [_ ?]; discriminate].
  - destruct (_ && _) eqn:E.
    + apply andb_prop in E as [E1 E2]. split; [|reflexivity].
      intros _. split; [lia | assumption].
    + split.
      * destruct (to_size_t drift); run_cpp; [|discriminate].
        intros [= _ Hx]. exfalso. exact (extraction_changes_state _ _ _ _ Hx).
      * intros [E1 E2]. apply andb_false_iff in E.
        destruct E as [E|E]; [lia | congruence].
Qed.

(** In downscaled mode every query with the stored wire and the stored
    drift bin is a hit, whatever the call before it did. *)
Lemma same_bin_is_hit (a : Members) s wire drift patch r s1 drift' patch' :
  fDownscaleFullView a = true ->
  bufferPatch a wire drift patch s = Returns r s1 ->
  scaledDrift a drift' = scaledDrift a drift ->
  is_hit s1 patch' (bufferPatch a wire drift' patch' s1).
Proof.
  intros Hd Hcall Hbin. apply is_hit_iff. split.
  - exact (bufferPatch_stores_wire _ _ _ _ _ _ _ Hcall).
  - unfold driftAgrees. rewrite Hd, Hbin.
    exact (bufferPatch_stores_bin _ _ _ _ _ _ _ Hd Hcall).
Qed.

(** The cache-hit identity law holds in downscaled mode. *)
Lemma repeat_is_hit_downscaled (a : Members) s wire drift patch :
  fDownscaleFullView a = true -> repeat_is_hit a s wire drift patch.
Proof.
  intros Hd r s1 Hcall. exact (same_bin_is_hit _ _ _ _ _ _ _ _ _ Hd Hcall eq_refl).
Qed.

Example ten_and_a_half_value : Qred <$> to_Q ten_and_a_half = Some (21 # 2)%Q.
Proof. reflexivity. Qed.

Example ten_and_a_half_slot : to_size_t ten_and_a_half = Some 10.
Proof. reflexivity. Qed.

Example slot_differs : eqb (of_Z 10) ten_and_a_half = false.
Proof. reflexivity. Qed.

Example ten_and_a_half_fractional : integral ten_and_a_half = false.
Proof. reflexivity. Qed.

Example integral_drift_repeat_hits :
  repeat_is_hit (sample false) fresh 5 (of_Z 10) [].
Proof.
  intros r s1 Hcall. vm_compute in Hcall. injection Hcall as <- <-. reflexivity.
Qed.

(** Without downscaling, a drift that does not survive the round trip
    through [size_t] is never found in the cache it has just been
    written to. *)
Lemma truncated_drift_repeat_misses (a : Members) s wire drift patch r s1 n patch' :
  fDownscaleFullView a = false ->
  bufferPatch a wire drift patch s = Returns r s1 ->
  s1 <> s ->
  to_size_t drift = Some n ->
  eqb (of_Z n) drift = false ->
  ~ is_hit s1 patch' (bufferPatch a wire drift patch' s1).
Proof.
  intros Hd Hcall Hmiss Hn Hcmp Hhit.
  apply is_hit_iff in Hhit as [_ Hagree]. unfold driftAgrees in Hagree.
  rewrite Hd in Hagree.
  destruct (bufferPatch_stores_truncation _ _ _ _ _ _ _ Hd Hcall) as [E|[E _]];
    [|contradiction].
  rewrite Hn in E. injection E as ->. congruence.
Qed.

(** The overload on the algorithm's own buffer: in downscaled mode the
    repeated call returns [true] and changes nothing. *)
Lemma bufferPatch_own_repeat_downscaled (a : Members) s wire drift b s1 :
  fDownscaleFullView a = true ->
  bufferPatch_own a wire drift s = Returns b s1 ->
  bufferPatch_own a wire drift s1 = Returns true s1.
Proof.
  intros Hd. unfold bufferPatch_own. unfold Cpp.bind at 1. unfold Cpp.get at 1.
  unfold Cpp.bind at 1.
  destruct (bufferPatch a wire drift (fWireDriftPatch s) s) as [r s'| |] eqn:Hcall;
    try discriminate.
  run_cpp. intros [= <- <-].
  assert (Hhit : is_hit (set_patch (snd r) s') (snd r)
                   (bufferPatch a wire drift (snd r) (set_patch (snd r) s'))).
  { apply is_hit_iff. split.
    - exact (bufferPatch_stores_wire _ _ _ _ _ _ _ Hcall).
    - unfold driftAgrees. rewrite Hd.
      exact (bufferPatch_stores_bin _ _ _ _ _ _ _ Hd Hcall). }
  unfold is_hit in Hhit.
  change (fWireDriftPatch (set_patch (snd r) s')) with (snd r).
  rewrite Hhit. reflexivity.
Qed.

(** Without downscaling a query whose drift has a fractional part is
    never a cache hit, whatever the cache holds. *)
Lemma fractional_drift_never_hits (a : Members) s wire drift patch :
  fDownscaleFullView a = false ->
  integral drift = false ->
  ~ is_hit s patch (bufferPatch a wire drift patch s).
Proof.
  intros Hd Hfrac Hhit. apply is_hit_iff in Hhit as [_ Hagree].
  unfold driftAgrees in Hagree. rewrite Hd in Hagree.
  rewrite (Float32Facts.of_Z_neq_fractional _ _ Hfrac) in Hagree. discriminate.
Qed.

(** C1 (the code departs from the law): without downscaling, a query
    whose drift has a fractional part (10.5, say), asked twice in a row,
    is extracted twice, whatever the cache held before.  The first call
    stores the truncated drift; the second compares that integer with the
    drift, misses, and calls [patchFromOriginalView] again, so that its
    result is that of the extraction and the law [repeat_is_hit] fails. *)
Theorem fractional_drift_repeat_recomputes (a : Members) (s : State)
    (wire : Z) (drift : float) (n : Z) (patch : Patch) :
  fDownscaleFullView a = false ->
  integral drift = false ->
  to_size_t drift = Some n ->
  let call := MkExtraction OriginalView wire drift (fPatchSizeW a) (fPatchSizeD a) in
  let r1 := patchFromOriginalView a wire drift (fPatchSizeW a) (fPatchSizeD a) patch in
  let r2 := patchFromOriginalView a wire drift (fPatchSizeW a) (fPatchSizeD a) (snd r1) in
  let s1 := log_extraction call (set_current wire n s) in
  bufferPatch a wire drift patch s = Returns r1 s1
  /\ bufferPatch a wire drift (snd r1) s1 = Returns r2 (log_extraction call s1)
  /\ ~ repeat_is_hit a s wire drift patch.
Proof.
  intros Hd Hfrac Hn call r1 r2 s1.
  assert (Hmiss : forall p s0,
            bufferPatch a wire drift p s0
            = Returns (patchFromOriginalView a wire drift (fPatchSizeW a) (fPatchSizeD a) p)
                      (log_extraction call (set_current wire n s0))).
  { intros p s0. unfold bufferPatch, extract. rewrite Hd. run_cpp.
    rewrite (Float32Facts.of_Z_neq_fractional _ _ Hfrac), andb_false_r, Hn.
    reflexivity. }
  split; [apply Hmiss|]. split; [apply Hmiss|].
  intros Hlaw. specialize (Hlaw r1 s1 (Hmiss _ _)).
  exact (fractional_drift_never_hits _ _ _ _ _ Hd Hfrac Hlaw).
Qed.

Lemma fractional_drift_repeat_recomputes_witness :
  bufferPatch (sample false) 5 ten_and_a_half []
    (MkState 5 10 [] [MkExtraction OriginalView 5 ten_and_a_half 32 44])
  = Returns (false, [])
      (MkState 5 10 [] [MkExtraction OriginalView 5 ten_and_a_half 32 44;
                        MkExtraction OriginalView 5 ten_and_a_half 32 44]).
Proof.
  exact (proj1 (proj2 (fractional_drift_repeat_recomputes (sample false) fresh 5
                         ten_and_a_half 10 [] eq_refl eq_refl eq_refl))).
Defined.

(** C2 with the bins read as floors fails: with downscaling and window 6
    the query (5, -3.0) after (5, 3.0) is a hit, both quotients being
    truncated to bin 0, while the floors of 0.5 and -0.5 are 0 and -1. *)
Lemma same_patch_by_floor_fails :
  ~ same_patch_by_floor (sample true) fresh 5 (of_Z 3) [] 5 (of_Z (-3)) [].
Proof.
  intros Hclaim. destruct (Hclaim _ _ eq_refl) as [Hhit _].
  destruct Hhit as [_ Hbins]; [reflexivity|].
  vm_compute in Hbins. discriminate Hbins.
Qed.

(** C2 (amended): two consecutive queries are treated as the same patch
    (the second is a cache hit) exactly when their wires are equal and
    their drifts agree under the drift policy: equal drift bins
    [(size_t)(drift / fDriftWindow)] in downscaled mode (the quotient
    truncated toward zero, which is the floor of
    the single-precision quotient when that is not negative), else the
    raw second drift compared with the stored slot, which holds the first
    drift truncated (or what a hit of the first call left there). *)
Theorem same_patch_policy (a : Members) (s s1 : State)
    (w1 : Z) (d1 : float) (p1 : Patch) (r1 : bool * Patch)
    (w2 : Z) (d2 : float) (p2 : Patch) :
  bufferPatch a w1 d1 p1 s = Returns r1 s1 ->
  (is_hit s1 p2 (bufferPatch a w2 d2 p2 s1) <->
     w1 = w2 /\
     (if fDownscaleFullView a
      then scaledDrift a d1 = scaledDrift a d2
      else eqb (of_Z (fCurrentScaledDrift s1)) d2 = true))
  /\ (fDownscaleFullView a = false ->
        to_size_t d1 = Some (fCurrentScaledDrift s1)
        \/ (s1 = s /\ eqb (of_Z (fCurrentScaledDrift s)) d1 = true))
  /\ (forall d q bin,
        to_Q (div d (of_Z (fDriftWindow a))) = Some q -> (0 <= q)%Q ->
        scaledDrift a d = Some bin -> bin = Qfloor q).
Proof.
  intros Hcall. split; [|split].
  - rewrite is_hit_iff, (bufferPatch_stores_wire _ _ _ _ _ _ _ Hcall).
    unfold driftAgrees. destruct (fDownscaleFullView a) eqn:Hd; [|reflexivity].
    rewrite (bufferPatch_stores_bin _ _ _ _ _ _ _ Hd Hcall).
    split; intros [-> E]; split; congruence.
  - intros Hd. exact (bufferPatch_stores_truncation _ _ _ _ _ _ _ Hd Hcall).
  - intros d q bin. apply to_size_t_floor.
Qed.

Lemma same_patch_policy_witness :
  let s1 := MkState 5 1 [] [MkExtraction DownsampledView 5 ten_and_a_half 32 44] in
  is_hit s1 [] (bufferPatch (sample true) 5 (dyadic 23 1) [] s1) <->
  5 = 5 /\ scaledDrift (sample true) ten_and_a_half = scaledDrift (sample true) (dyadic 23 1).
Proof.
  exact (proj1 (same_patch_policy (sample true) fresh _ 5 ten_and_a_half [] (false, [])
                  5 (dyadic 23 1) [] eq_refl)).
Defined.

(** Without downscaling, the failed extraction at (5, 10.5) on a fresh
    cache is followed by another miss (and another failed extraction),
    not by a hit. *)
Lemma repeat_after_failure_not_always_hit :
  ~ repeat_after_failure_is_hit (sample false) fresh 5 ten_and_a_half [].
Proof.
  intros Hclaim. pose proof (Hclaim [] _ eq_refl) as Hhit.
  unfold is_hit in Hhit. vm_compute in Hhit. discriminate Hhit.
Qed.

(** What a failed query leaves behind: the cached coordinates are
    overwritten before the extraction is attempted, so the cache holds the
    queried wire and the slot of its drift; a following query for that
    wire whose drift passes the test against the stored slot is a hit. *)
Lemma repeat_after_failure_hits_stored_cell (a : Members) (s s1 : State)
    (wire : Z) (drift : float) (patch p1 : Patch) :
  bufferPatch a wire drift patch s = Returns (false, p1) s1 ->
  (fCurrentWireIdx s1 = wire
   /\ (if fDownscaleFullView a
       then scaledDrift a drift = Some (fCurrentScaledDrift s1)
       else to_size_t drift = Some (fCurrentScaledDrift s1)))
  /\ (forall drift',
        driftAgrees a (fCurrentScaledDrift s1) drift' ->
        is_hit s1 p1 (bufferPatch a wire drift' p1 s1))
  /\ (fDownscaleFullView a = true ->
        is_hit s1 p1 (bufferPatch a wire drift p1 s1)).
Proof.
  intros Hcall.
  pose proof (bufferPatch_stores_wire _ _ _ _ _ _ _ Hcall) as Hw.
  split; [split; [exact Hw|] | split].
  - destruct (fDownscaleFullView a) eqn:Hd.
    + exact (bufferPatch_stores_bin _ _ _ _ _ _ _ Hd Hcall).
    + destruct (bufferPatch_stores_truncation _ _ _ _ _ _ _ Hd Hcall) as [E|[-> E]];
        [exact E|].
      exfalso. revert Hcall. unfold bufferPatch. rewrite Hd. run_cpp.
      rewrite E. destruct (fCurrentWireIdx s =? wire); simpl.
      * discriminate.
      * destruct (to_size_t drift); run_cpp; [|discriminate].
        unfold extract. run_cpp. intros [= _ Hx].
        exact (extraction_changes_state _ _ _ _ Hx).
  - intros drift' Hagree. apply is_hit_iff. split; assumption.
  - intros Hd. exact (same_bin_is_hit _ _ _ _ _ _ _ _ _ Hd Hcall eq_refl).
Qed.

Lemma repeat_after_failure_hits_stored_cell_witness :
  let s1 := MkState 5 1 [] [MkExtraction DownsampledView 5 ten_and_a_half 32 44] in
  is_hit s1 [] (bufferPatch (sample true) 5 ten_and_a_half [] s1).
Proof.
  exact (proj2 (proj2 (repeat_after_failure_hits_stored_cell (sample true) fresh _
                         5 ten_and_a_half [] [] eq_refl)) eq_refl).
Defined.

(** C9: the cached coordinates are overwritten before the extraction is
    attempted: after a query whose extraction failed the cache is
    positioned at the queried wire.  With downscaling the repeated query
    is then the cache hit the claim describes.  Without downscaling the
    code does not do so for any drift with a fractional part: the slot was
    given the drift converted to [size_t], the repeated query compares
    that integer with the drift, misses, and calls the extraction once
    more. *)
Theorem failed_query_repeat (a : Members) (s s1 : State)
    (wire : Z) (drift : float) (patch p1 : Patch) :
  bufferPatch a wire drift patch s = Returns (false, p1) s1 ->
  fCurrentWireIdx s1 = wire
  /\ (fDownscaleFullView a = true ->
        is_hit s1 p1 (bufferPatch a wire drift p1 s1))
  /\ (fDownscaleFullView a = false -> integral drift = false ->
        bufferPatch a wire drift p1 s1
        = Returns
            (patchFromOriginalView a wire drift (fPatchSizeW a) (fPatchSizeD a) p1)
            (log_extraction
               (MkExtraction OriginalView wire drift (fPatchSizeW a) (fPatchSizeD a)) s1)
        /\ ~ is_hit s1 p1 (bufferPatch a wire drift p1 s1)).
Proof.
  intros Hcall.
  pose proof (bufferPatch_stores_wire _ _ _ _ _ _ _ Hcall) as Hw.
  split; [exact Hw|]. split.
  - intros Hd. exact (same_bin_is_hit _ _ _ _ _ _ _ _ _ Hd Hcall eq_refl).
  - intros Hd Hfrac.
    pose proof (Float32Facts.of_Z_neq_fractional (fCurrentScaledDrift s1) drift Hfrac) as Hne.
    assert (Hslot : to_size_t drift = Some (fCurrentScaledDrift s1)).
    { destruct (bufferPatch_stores_truncation _ _ _ _ _ _ _ Hd Hcall) as [E|[_ E]];
        [exact E|].
      rewrite (Float32Facts.of_Z_neq_fractional _ _ Hfrac) in E. discriminate. }
    split; [|exact (fractional_drift_never_hits a s1 wire drift p1 Hd Hfrac)].
    unfold bufferPatch, extract. rewrite Hd. run_cpp.
    rewrite Hne, andb_false_r. simpl. rewrite Hslot. simpl.
    rewrite <- Hw. destruct s1; reflexivity.
Qed.

Lemma failed_query_repeat_witness :
  let c := MkExtraction OriginalView 5 ten_and_a_half 32 44 in
  bufferPatch (sample false) 5 ten_and_a_half [] (MkState 5 10 [] [c])
  = Returns (false, []) (MkState 5 10 [] [c; c]).
Proof.
  exact (proj1 (proj2 (proj2 (failed_query_repeat (sample false) fresh _ 5 ten_and_a_half
                                [] [] eq_refl)) eq_refl eq_refl)).
Defined.

End PatchCache.

(** ** The MVA writer *)

Module WriterFacts.

Import MVAWriter.

Section Facts.

Context {score : Type} `{Score score}.

Implicit Types (w : MVAWriter score) (T : TypeInfo) (io : World score).

(** *** Lookup of an unregistered type *)

Lemma getProductID_unregistered w T :
  unregistered w T -> getProductID T w = Throws (not_initialized T) w.
Proof. unfold unregistered, getProductID. run_cpp. intros ->. reflexivity. Qed.

Lemma getProductID_registered w T id :
  fTypeHashToID w !! getProductHash T = Some id -> getProductID T w = Returns id w.
Proof. unfold getProductID. run_cpp. intros ->. reflexivity. Qed.

Lemma setOutput_outcome w id key values :
  setOutput id key values w =
    match fOutputs w !! id with
    | Some outs =>
        if (key <? length outs)%nat
        then Returns tt (set_outputs (<[id := <[key := values]> outs]> (fOutputs w)) w)
        else Undefined
    | None => Undefined
    end.
Proof.
  unfold setOutput. run_cpp. destruct (fOutputs w !! id); run_cpp; [|reflexivity].
  destruct (_ <? _)%nat; reflexivity.
Qed.

Lemma addOutput_outcome w id values :
  addOutput id values w =
    match fOutputs w !! id with
    | Some outs => Returns tt (set_outputs (<[id := outs ++ [values]]> (fOutputs w)) w)
    | None => Undefined
    end.
Proof. unfold addOutput. run_cpp. destruct (fOutputs w !! id); reflexivity. Qed.

(** *** [initOutputs] *)

Lemma descriptionExists_some w tname :
  descriptionExists w tname = true -> exists ds, fDescriptions w = Some ds.
Proof. unfold descriptionExists. destruct (fDescriptions w); [eauto | discriminate]. Qed.

Lemma initOutputs_duplicate N T tag dataSize names w :
  descriptionExists w (getProductName T) = true ->
  initOutputs N T tag dataSize names w
  = Throws (already_initialized (getProductName T)) w.
Proof.
  intros Hex. destruct (descriptionExists_some _ _ Hex) as [ds Hds].
  unfold initOutputs. run_cpp. rewrite Hds, Hex. reflexivity.
Qed.

Lemma insert_last {A} (l : list A) (x y : A) :
  <[(length (l ++ [x]) - 1)%nat := y]> (l ++ [x]) = l ++ [y].
Proof.
  rewrite length_app. simpl.
  replace (length l + 1 - 1)%nat with (length l + 0)%nat by lia.
  rewrite insert_app_r. reflexivity.
Qed.

Lemma lookup_last {A} (l : list A) (x : A) :
  (l ++ [x]) !! (length (l ++ [x]) - 1)%nat = Some x.
Proof.
  rewrite length_app. simpl.
  replace (length l + 1 - 1)%nat with (length l + 0)%nat by lia.
  rewrite lookup_app_r by lia. replace (length l + 0 - length l)%nat with 0%nat by lia.
  reflexivity.
Qed.

Lemma initOutputs_fresh N T tag dataSize names w :
  descriptionExists w (getProductName T) = false ->
  initOutputs N T tag dataSize names w
  = Returns (length (fOutputs w))
      (MkWriter (fProducer w) (fInstanceName w) (fRegisteredDataTypes w)
         (fIsDescriptionRegistered w)
         (<[getProductHash T := length (fOutputs w)]> (fTypeHashToID w))
         (fOutputs w ++ [replicate dataSize (replicate N zero_score)])
         (Some (default [] (fDescriptions w)
                ++ [MkDescription (encode tag) (fInstanceName w +:+ getProductName T)]))).
Proof.
  intros Hex. unfold initOutputs. run_cpp.
  assert (Hid : (length (fOutputs w ++ [[]]) - 1)%nat = length (fOutputs w)).
  { rewrite length_app. simpl. lia. }
  destruct (fDescriptions w) as [ds|] eqn:Hds; run_cpp;
    rewrite ?Hex; run_cpp; rewrite ?Hds; run_cpp;
    (destruct dataSize as [|n]; run_cpp;
     [ rewrite Hid; reflexivity
     | rewrite lookup_last; run_cpp; rewrite insert_last, Hid; reflexivity ]).
Qed.

Lemma initOutputs_returns_inv N T tag dataSize names w id w1 :
  initOutputs N T tag dataSize names w = Returns id w1 ->
  descriptionExists w (getProductName T) = false.
Proof.
  destruct (descriptionExists w (getProductName T)) eqn:Hex; [|reflexivity].
  rewrite initOutputs_duplicate by assumption. discriminate.
Qed.

(** A description, once there, stays for the rest of the event. *)
Lemma descriptionExists_init N T tag dataSize names w id w1 tname :
  initOutputs N T tag dataSize names w = Returns id w1 ->
  descriptionExists w1 tname
  = descriptionExists w tname || String.eqb (fInstanceName w +:+ getProductName T)
                                            (fInstanceName w +:+ tname).
Proof.
  intros Hinit. pose proof (initOutputs_returns_inv _ _ _ _ _ _ _ _ Hinit) as Hex.
  rewrite (initOutputs_fresh _ _ _ _ _ _ Hex) in Hinit. injection Hinit as _ <-.
  unfold descriptionExists. simpl. rewrite existsb_app. simpl. rewrite orb_false_r.
  destruct (fDescriptions w); reflexivity.
Qed.

Lemma descriptionExists_within_event w w' tname :
  within_event w w' ->
  descriptionExists w tname = true -> descriptionExists w' tname = true.
Proof.
  induction 1 as [w|w w1 w2 N T tag dataSize names id _ IH Hstep
                  |w w1 w2 id key values _ IH Hstep
                  |w w1 w2 id values _ IH Hstep]; intros Hex.
  - exact Hex.
  - rewrite (descriptionExists_init _ _ _ _ _ _ _ _ _ Hstep), (IH Hex). reflexivity.
  - specialize (IH Hex). rewrite setOutput_outcome in Hstep.
    destruct (fOutputs w1 !! id); [|discriminate].
    destruct (_ <? _)%nat; [|discriminate]. injection Hstep as <-. exact IH.
  - specialize (IH Hex). rewrite addOutput_outcome in Hstep.
    destruct (fOutputs w1 !! id); [|discriminate]. injection Hstep as <-. exact IH.
Qed.

(** *** [saveOutputs] *)

Lemma check_descriptions w (types : list string) :
  for_each types
    (fun n => if descriptionExists w n then ret tt else throw (no_description n)) w
  = match find (fun n => negb (descriptionExists w n)) types with
    | Some n => Throws (no_description n) w
    | None => Returns tt w
    end.
Proof.
  induction types as [|n types IH]; [reflexivity|].
  simpl. unfold Cpp.bind. destruct (descriptionExists w n); simpl.
  - unfold Cpp.ret at 1. exact IH.
  - reflexivity.
Qed.

Lemma put_outputs_zip (outs : list (list (MVAOutput score))) ds io :
  length outs = length ds ->
  put_outputs outs ds io
  = Some (MkWorld (event io ++ zip_with OutputProduct outs (outputInstance <$> ds))
                  (cout io)).
Proof.
  revert ds io. induction outs as [|o outs IH]; intros [|d ds] io Hlen;
    simpl in Hlen; try discriminate.
  - simpl. rewrite app_nil_r. destruct io; reflexivity.
  - simpl. rewrite IH by lia. simpl. rewrite <- app_assoc. reflexivity.
Qed.

Lemma saveOutputs_outcome io w :
  saveOutputs io w =
    match find (fun n => negb (descriptionExists w n)) (fRegisteredDataTypes w) with
    | Some n => Throws (no_description n) w
    | None =>
        match fDescriptions w with
        | None => Undefined
        | Some ds =>
            if (length (fOutputs w) =? length ds)%nat
            then Returns (saved w ds io) (clearEventData w)
            else Throws length_mismatch w
        end
    end.
Proof.
  unfold saveOutputs. unfold Cpp.bind at 1. unfold Cpp.get at 1.
  unfold Cpp.bind at 1. rewrite check_descriptions.
  destruct (find _ _); [reflexivity|].
  run_cpp. destruct (fDescriptions w) as [ds|]; run_cpp; [|reflexivity].
  destruct (length (fOutputs w) =? length ds)%nat eqn:Hlen; simpl; [|reflexivity].
  apply Nat.eqb_eq in Hlen. rewrite put_outputs_zip by (simpl; assumption).
  run_cpp. unfold saved, print_line, evt_put. simpl.
  rewrite <- !app_assoc. reflexivity.
Qed.

(** *** The claims about the writer *)

(** C3 (amended): [getOutput<T>] for a type without registry entry in
    the current event throws the lookup failure "MVA not initialized
    for product" and leaves the writer as it was.  [setOutput] and
    [addOutput] take an output index, not a type: they consult only
    [fOutputs], never throw, return when the index (and for [setOutput]
    the key) is in range and are undefined otherwise. *)
Theorem unregistered_lookup (w : MVAWriter score) (T : TypeInfo) :
  unregistered w T ->
  (forall N key, getOutput N T key w = Throws (not_initialized T) w)
  /\ (forall id key values,
        thrown (setOutput id key values w) = None
        /\ (is_Some (returned (setOutput id key values w))
            <-> exists outs, fOutputs w !! id = Some outs /\ (key < length outs)%nat))
  /\ (forall id values,
        thrown (addOutput id values w) = None
        /\ (is_Some (returned (addOutput id values w)) <-> is_Some (fOutputs w !! id))).
Proof.
  intros Hun. split; [|split].
  - intros N key. unfold getOutput. unfold Cpp.bind at 1.
    rewrite (getProductID_unregistered _ _ Hun). reflexivity.
  - intros id key values. rewrite setOutput_outcome.
    destruct (fOutputs w !! id) as [outs|]; simpl.
    + destruct (key <? length outs)%nat eqn:Hk; simpl.
      * split; [reflexivity|]. split; [|eauto].
        intros _. exists outs. split; [reflexivity|]. apply Nat.ltb_lt, Hk.
      * split; [reflexivity|]. split; [intros [? [=]]|].
        intros (outs' & [= <-] & Hlt). apply Nat.ltb_ge in Hk. lia.
    + split; [reflexivity|]. split; [intros [? [=]] | intros (? & [=] & _)].
  - intros id values. rewrite addOutput_outcome.
    destruct (fOutputs w !! id) as [outs|]; simpl.
    + split; [reflexivity|]. split; eauto.
    + split; [reflexivity|]. split; intros [? [=]].
Qed.

(** C4: once [initOutputs<T>] has succeeded, every later call of
    [initOutputs<T>] in the same event (after any successful
    [initOutputs], [setOutput], [addOutput] calls in between) throws
    "MVADescription<N> already initialized for" T and leaves the writer,
    hence its descriptions, as it was. *)
Theorem initOutputs_twice (w w1 w2 : MVAWriter score) (T : TypeInfo)
    (N : nat) (tag : InputTag) (dataSize : nat) (names : list string) (id : nat)
    (N' : nat) (tag' : InputTag) (dataSize' : nat) (names' : list string) :
  initOutputs N T tag dataSize names w = Returns id w1 ->
  within_event w1 w2 ->
  initOutputs N' T tag' dataSize' names' w2
  = Throws (already_initialized (getProductName T)) w2.
Proof.
  intros Hfirst Hlater. apply initOutputs_duplicate.
  apply (descriptionExists_within_event _ _ _ Hlater).
  rewrite (descriptionExists_init _ _ _ _ _ _ _ _ _ Hfirst), String.eqb_refl.
  apply orb_true_r.
Qed.

(** C5: [saveOutputs] throws "No MVADescription<N> prepared for type" as
    soon as a registered type name has no description; it throws as well
    when the number of output collections differs from the number of
    descriptions (the length error, if every registered name is
    described); whenever it returns, both checks have passed and the event
    has received the output collections, each under its description's
    instance name, followed by the descriptions; and when both checks pass
    it does return so. *)
Theorem saveOutputs_checks (io : World score) (w : MVAWriter score) :
  (forall n, n ∈ fRegisteredDataTypes w -> descriptionExists w n = false ->
     exists n', n' ∈ fRegisteredDataTypes w /\ descriptionExists w n' = false
                /\ saveOutputs io w = Throws (no_description n') w)
  /\ (forall ds,
        fDescriptions w = Some ds ->
        length (fOutputs w) <> length ds ->
        exists e,
          saveOutputs io w = Throws e w
          /\ ((forall n, n ∈ fRegisteredDataTypes w -> descriptionExists w n = true) ->
              e = length_mismatch))
  /\ (forall io' w',
        saveOutputs io w = Returns io' w' ->
        (forall n, n ∈ fRegisteredDataTypes w -> descriptionExists w n = true)
        /\ exists ds, fDescriptions w = Some ds
             /\ length (fOutputs w) = length ds
             /\ event io' = event io
                            ++ zip_with OutputProduct (fOutputs w) (outputInstance <$> ds)
                            ++ [DescriptionProduct ds (fInstanceName w)])
  /\ (forall ds,
        (forall n, n ∈ fRegisteredDataTypes w -> descriptionExists w n = true) ->
        fDescriptions w = Some ds ->
        length (fOutputs w) = length ds ->
        saveOutputs io w = Returns (saved w ds io) (clearEventData w)).
Proof.
  rewrite saveOutputs_outcome.
  destruct (find _ _) as [m|] eqn:Hfind.
  - apply find_some in Hfind as [Hin Hm]. apply negb_true_iff in Hm.
    apply list_elem_of_In in Hin. split; [|split; [|split]].
    + intros _ _ _. exists m. auto.
    + intros ds _ _. eexists. split; [reflexivity|].
      intros Hall. rewrite (Hall m Hin) in Hm. discriminate.
    + discriminate.
    + intros ds Hall. rewrite (Hall m Hin) in Hm. discriminate.
  - assert (Hall : forall n, n ∈ fRegisteredDataTypes w -> descriptionExists w n = true).
    { intros n Hin. apply list_elem_of_In in Hin.
      pose proof (find_none _ _ Hfind n Hin) as Hn. simpl in Hn.
      apply negb_false_iff in Hn. exact Hn. }
    split; [|split; [|split]].
    + intros n Hin Hn. rewrite (Hall n Hin) in Hn. discriminate.
    + intros ds -> Hlen. apply Nat.eqb_neq in Hlen. rewrite Hlen.
      eexists. split; reflexivity.
    + intros io' w'. destruct (fDescriptions w) as [ds|]; [|discriminate].
      destruct (length (fOutputs w) =? length ds)%nat eqn:Hlen; [|discriminate].
      intros [= <- <-]. split; [exact Hall|]. exists ds.
      apply Nat.eqb_eq in Hlen. auto.
    + intros ds _ -> Hlen. apply Nat.eqb_eq in Hlen. rewrite Hlen. reflexivity.
Qed.

(** C6: a successful [saveOutputs] leaves the registry empty, the
    output collections empty and the description container null, and
    does not touch the producer, the instance name, the registered type
    names and the description-registered flag; [initOutputs<T>] then
    succeeds again for every type, starting at index 0. *)
Theorem saveOutputs_resets (io io' : World score) (w w' : MVAWriter score) :
  saveOutputs io w = Returns io' w' ->
  (fTypeHashToID w' = ∅ /\ fOutputs w' = [] /\ fDescriptions w' = None)
  /\ (fProducer w' = fProducer w /\ fInstanceName w' = fInstanceName w
      /\ fRegisteredDataTypes w' = fRegisteredDataTypes w
      /\ fIsDescriptionRegistered w' = fIsDescriptionRegistered w)
  /\ (forall N T tag dataSize names,
        exists w'', initOutputs N T tag dataSize names w' = Returns 0%nat w'').
Proof.
  rewrite saveOutputs_outcome.
  destruct (find _ _); [discriminate|].
  destruct (fDescriptions w) as [ds|]; [|discriminate].
  destruct (_ =? _)%nat; [|discriminate].
  intros [= _ <-]. split; [|split].
  - auto.
  - auto.
  - intros N T tag dataSize names. eexists.
    rewrite initOutputs_fresh by reflexivity. reflexivity.
Qed.

End Facts.

(** The stated form of C3 fails: with hits registered and clusters not,
    [setOutput] and [addOutput] on the hits' index return normally. *)
Lemma unregistered_setOutput_returns :
  ~ lookup_failure_at hits_writer 4 cluster_type 0 1 [1; 0; 0; 0]%Qc.
Proof.
  unfold lookup_failure_at. intros Hclaim.
  destruct (Hclaim eq_refl) as (_ & Hset & _). vm_compute in Hset. discriminate Hset.
Qed.

Lemma unregistered_lookup_witness :
  getOutput 4 cluster_type 1 hits_writer = Throws (not_initialized cluster_type) hits_writer.
Proof.
  exact (proj1 (unregistered_lookup hits_writer cluster_type eq_refl) 4%nat 1%nat).
Defined.

Lemma initOutputs_twice_witness :
  initOutputs 4 hit_type hit_tag 2 [] hits_writer
  = Throws (already_initialized "recob::Hit") hits_writer.
Proof.
  exact (initOutputs_twice declared_writer hits_writer hits_writer hit_type
           4 hit_tag 2 [] 0 4 hit_tag 2 [] eq_refl (same_point hits_writer)).
Defined.

Lemma saveOutputs_checks_witness :
  saveOutputs empty_world declared_writer = Throws (no_description "recob::Hit") declared_writer.
Proof.
  destruct (proj1 (saveOutputs_checks empty_world declared_writer) "recob::Hit")
    as (n' & Hin & _ & Hthrow).
  - apply list_elem_of_In. left. reflexivity.
  - reflexivity.
  - apply list_elem_of_In in Hin. destruct Hin as [<-|[]]. exact Hthrow.
Defined.

Lemma saveOutputs_resets_witness :
  fTypeHashToID declared_writer = ∅ /\ fOutputs declared_writer = []
  /\ fDescriptions declared_writer = None.
Proof.
  exact (proj1 (saveOutputs_resets empty_world
                  (saved hits_writer [MkDescription "linecluster" "emtrackrecob::Hit"]
                         empty_world)
                  hits_writer declared_writer eq_refl)).
Defined.

End WriterFacts.

(** ** Accumulation with uniform weights *)

Module AccumulateFacts.

Import MVAWriter MVAAccumulate.

Lemma Qc_of_nat_S (n : nat) : Qc_of_nat (S n) = (Qc_of_nat n + 1)%Qc.
Proof.
  unfold Qc_of_nat. apply Qc_is_canon. simpl.
  rewrite !Qred_correct, Nat2Z.inj_succ. unfold Z.succ.
  rewrite inject_Z_plus. reflexivity.
Qed.

Lemma Qc_of_nat_0 : Qc_of_nat 0 = 0%Qc.
Proof. apply Qc_is_canon. reflexivity. Qed.

Lemma vscale_one (v : list Qc) : vscale 1 v = v.
Proof.
  unfold vscale. induction v as [|x v IH]; [reflexivity|].
  rewrite fmap_cons, IH, Qcmult_1_l. reflexivity.
Qed.

Lemma weighted_sum_ones (keys : list nat) (outs : list (list Qc)) (acc : list Qc) (totw : Qc) :
  weighted_sum keys (replicate (length keys) 1%Qc) outs acc totw
  = (fun a => (a, (totw + Qc_of_nat (length keys))%Qc)) <$> sum_scores keys outs acc.
Proof.
  revert acc totw. induction keys as [|k keys IH]; intros acc totw.
  - cbn [length replicate weighted_sum sum_scores].
    rewrite Qc_of_nat_0, Qcplus_0_r. reflexivity.
  - cbn [length replicate weighted_sum sum_scores].
    destruct (outs !! k) as [v|]; [|reflexivity].
    rewrite vscale_one, IH, Qc_of_nat_S.
    destruct (sum_scores keys outs (vadd acc v)); [|reflexivity].
    cbn [fmap option_fmap option_map]. f_equal. f_equal. ring.
Qed.

Lemma fmap_constant {A B} (b : B) (l : list A) : (fun _ => b) <$> l = replicate (length l) b.
Proof. induction l as [|x l IH]; [reflexivity|]. rewrite fmap_cons, IH. reflexivity. Qed.

Lemma sum_scores_in_range (keys : list nat) (outs : list (list Qc)) (acc : list Qc) :
  Forall (fun k => (k < length outs)%nat) keys -> is_Some (sum_scores keys outs acc).
Proof.
  intros Hkeys. revert acc. induction Hkeys as [|k keys Hk _ IH]; intros acc.
  - simpl. eauto.
  - simpl. destruct (lookup_lt_is_Some_2 outs k Hk) as [v ->]. apply IH.
Qed.

Section Uniform.

Context {X : Type}.
Variables (N : nat) (items : list (Ptr X)) (outs : list (list Qc)).
Hypothesis nonempty : items <> [].

Lemma pAccumulate_weights_ones :
  pAccumulate_weights N items (replicate (length items) 1%Qc) outs
  = pAccumulate N items outs.
Proof.
  unfold pAccumulate_weights, pAccumulate.
  destruct items as [|p rest] eqn:E; [contradiction|]. rewrite <- E.
  replace (length items) with (length (key <$> items)) at 1 by apply length_fmap.
  rewrite weighted_sum_ones, length_fmap.
  destruct (sum_scores (key <$> items) outs (replicate N 0%Qc)); [|reflexivity].
  simpl. rewrite Qcplus_0_l. reflexivity.
Qed.

Lemma pAccumulate_fweight_one :
  pAccumulate_fweight N items (fun _ => 1%Qc) outs = pAccumulate N items outs.
Proof.
  unfold pAccumulate_fweight. rewrite fmap_constant. apply pAccumulate_weights_ones.
Qed.

Lemma pAccumulate_fweight_ptr_one :
  pAccumulate_fweight_ptr N items (fun _ => 1%Qc) outs = pAccumulate N items outs.
Proof.
  unfold pAccumulate_fweight_ptr. rewrite fmap_constant. apply pAccumulate_weights_ones.
Qed.

Lemma pAccumulate_in_range :
  Forall (fun p => (key p < length outs)%nat) items ->
  is_Some (pAccumulate N items outs).
Proof.
  intros Hkeys. unfold pAccumulate. destruct items as [|p rest] eqn:E; [eauto|].
  rewrite <- E in *.
  destruct (sum_scores_in_range (key <$> items) outs (replicate N 0%Qc)) as [acc ->].
  - apply Forall_fmap. exact Hkeys.
  - simpl. eauto.
Qed.

End Uniform.

Lemma outputs_of_registered (T : TypeInfo) (w : MVAWriter Qc) id outs :
  fTypeHashToID w !! getProductHash T = Some id ->
  fOutputs w !! id = Some outs ->
  outputs_of T w = Returns outs w.
Proof.
  intros Hid Houts. unfold outputs_of. unfold Cpp.bind at 1.
  rewrite (WriterFacts.getProductID_registered _ _ _ Hid). run_cpp.
  rewrite Houts. reflexivity.
Qed.

(** The accumulating overloads look the type up first: for a type without
    registry entry they throw the lookup failure. *)
Lemma getOutput_items_unregistered {X : Type} (N : nat) (T : TypeInfo)
    (items : list (Ptr X)) (w : MVAWriter Qc) :
  unregistered w T ->
  getOutput_items N T items w = Throws (not_initialized T) w.
Proof.
  intros Hun. unfold getOutput_items, outputs_of. unfold Cpp.bind.
  rewrite (WriterFacts.getProductID_unregistered _ _ Hun). reflexivity.
Qed.

(** C7: for a non-empty list of items of a registered type whose keys
    lie in the stored collection, the accumulation with all weights 1,
    the accumulation with the constant-1 weighting function (of the item
    or of the pointer) and the unweighted accumulation return the same
    vector (scores as exact rationals, so equality is exact). *)
Theorem uniform_weights_agree {X : Type} (N : nat) (T : TypeInfo)
    (items : list (Ptr X)) (w : MVAWriter Qc) (id : nat) (outs : list (list Qc)) :
  items <> [] ->
  fTypeHashToID w !! getProductHash T = Some id ->
  fOutputs w !! id = Some outs ->
  Forall (fun p => (key p < length outs)%nat) items ->
  exists v,
    getOutput_items N T items w = Returns v w
    /\ getOutput_weights N T items (replicate (length items) 1%Qc) w = Returns v w
    /\ getOutput_fweight N T items (fun _ => 1%Qc) w = Returns v w
    /\ getOutput_fweight_ptr N T items (fun _ => 1%Qc) w = Returns v w.
Proof.
  intros Hne Hid Houts Hkeys.
  destruct (pAccumulate_in_range N items outs Hne Hkeys) as [v Hv].
  exists v.
  unfold getOutput_items, getOutput_weights, getOutput_fweight, getOutput_fweight_ptr.
  unfold Cpp.bind.
  rewrite (outputs_of_registered _ _ _ _ Hid Houts).
  rewrite pAccumulate_weights_ones, pAccumulate_fweight_one, pAccumulate_fweight_ptr_one
    by assumption.
  rewrite Hv. auto.
Qed.

Lemma uniform_weights_agree_witness :
  exists v,
    getOutput_items 2 hit_type two_hits scored_writer = Returns v scored_writer
    /\ getOutput_weights 2 hit_type two_hits (replicate (length two_hits) 1%Qc) scored_writer
       = Returns v scored_writer
    /\ getOutput_fweight 2 hit_type two_hits (fun _ => 1%Qc) scored_writer
       = Returns v scored_writer
    /\ getOutput_fweight_ptr 2 hit_type two_hits (fun _ => 1%Qc) scored_writer
       = Returns v scored_writer.
Proof.
  apply (uniform_weights_agree 2 hit_type two_hits scored_writer 0 (fOutputs_scored)).
  - discriminate.
  - reflexivity.
  - reflexivity.
  - repeat constructor.
Defined.

(** The scenario of the specification: scores [0.2, 0.8] and [0.6, 0.4]
    accumulate to [0.4, 0.6]. *)
Example two_hits_mean :
  pAccumulate 2 two_hits fOutputs_scored = Some [Q2Qc (2 # 5); Q2Qc (3 # 5)].
Proof.
  vm_compute. f_equal. f_equal; [|f_equal]; apply Qc_is_canon; reflexivity.
Qed.

End AccumulateFacts.

(** ** Triton error helpers *)

Module TritonFacts.

Import triton_utils.

(** C8: [throwIfError] throws the "TritonServerFailure" exception, whose
    text is the supplied message followed by the error, exactly when the
    error is not OK, and returns normally otherwise; [warnIfError] always
    returns, its result is [IsOk], and it logs one warning when the error
    is not OK and nothing when it is. *)
Theorem error_policy (err : Error) (msg : string) (log : Logger) :
  (IsOk err = false <-> throwIfError err msg log = Throws (failure err msg) log)
  /\ (IsOk err = true <-> throwIfError err msg log = Returns tt log)
  /\ what (failure err msg) = msg +:+ ": " +:+ shown err
  /\ warnIfError err msg log
     = Returns (IsOk err) (if IsOk err then log else log ++ [warning err msg]).
Proof.
  unfold throwIfError, warnIfError. run_cpp.
  destruct (IsOk err); simpl; repeat split; auto; discriminate.
Qed.

End TritonFacts.

(** ** The wire cluster finder *)

Module ClusterFinderFacts.

Import WireClusterFinder.

Lemma keeps_event_ret {A} (a : A) : keeps_event (Cpp.ret a).
Proof. intros io. exists a, io. auto. Qed.

Lemma keeps_event_bind {A B} (c : M Env A) (k : A -> M Env B) :
  keeps_event c -> (forall a, keeps_event (k a)) -> keeps_event (Cpp.bind c k).
Proof.
  intros Hc Hk io. destruct (Hc io) as (a & io1 & E1 & Ev1).
  destruct (Hk a io1) as (b & io2 & E2 & Ev2).
  exists b, io2. unfold Cpp.bind. rewrite E1. split; [exact E2 | congruence].
Qed.

Lemma keeps_event_say (text : string) : keeps_event (say text).
Proof. intros io. exists tt. eexists. split; reflexivity. Qed.

Lemma keeps_event_getWires (label : string) : keeps_event (getWires label).
Proof. intros io. eexists. exists io. split; reflexivity. Qed.

Create HintDb keeps discriminated.
#[local] Hint Resolve keeps_event_ret keeps_event_say keeps_event_getWires : keeps.
#[local] Hint Extern 2 (keeps_event (Cpp.bind _ _)) =>
  apply keeps_event_bind; [|intros ?] : keeps.

Lemma keeps_event_PrintWirePtrByChannel (vec : list WirePtr) :
  keeps_event (PrintWirePtrByChannel vec).
Proof. unfold PrintWirePtrByChannel. auto 10 with keeps. Qed.

#[local] Hint Resolve keeps_event_PrintWirePtrByChannel : keeps.

Lemma keeps_event_sort_entry (m : Finder) (p : ApaView * list WirePtr) :
  keeps_event (sort_entry m p).
Proof. unfold sort_entry. destruct (3 <=? fLogLevel m); auto 12 with keeps. Qed.

#[local] Hint Resolve keeps_event_sort_entry : keeps.

Lemma keeps_event_sort_entries (m : Finder) (entries : list (ApaView * list WirePtr)) :
  keeps_event (sort_entries m entries).
Proof. induction entries as [|p rest IH]; simpl; auto 8 with keeps. Qed.

(** With a non-zero divisor the grouping loop never leaves defined
    behaviour. *)
Lemma keeps_event_group_wires (m : Finder) (wirelist : list WirePtr)
    (acc : list (ApaView * list WirePtr)) :
  to_unsigned (fNChanPerApa m) <> 0 ->
  keeps_event (group_wires m wirelist acc).
Proof.
  intros Hdiv. revert acc. induction wirelist as [|wire rest IH]; intros acc; simpl.
  - auto with keeps.
  - destruct (_ =? _)%nat; [apply IH|].
    apply keeps_event_bind; [|intros ?; apply IH].
    unfold GetApaView. destruct (Z.eqb_spec (to_unsigned (fNChanPerApa m)) 0); [lia|].
    auto with keeps.
Qed.

(** Wires without a region of interest never reach the division. *)
Lemma keeps_event_group_wires_no_roi (m : Finder) (wirelist : list WirePtr)
    (acc : list (ApaView * list WirePtr)) :
  Forall (fun wire => SignalROI (target wire) = []) wirelist ->
  keeps_event (group_wires m wirelist acc).
Proof.
  induction 1 as [|wire rest Hw _ IH]; simpl; [auto with keeps|].
  rewrite Hw. exact IH.
Qed.

Lemma puts_one_put (ws : list Wire) : puts_one ws (e_put ws).
Proof. intros io. eexists. split; [reflexivity|]. split; reflexivity. Qed.

Lemma puts_one_bind {A} (ws : list Wire) (c : M Env A) (k : A -> M Env unit) :
  keeps_event c -> (forall a, puts_one ws (k a)) -> puts_one ws (Cpp.bind c k).
Proof.
  intros Hc Hk io. destruct (Hc io) as (a & io1 & E1 & Ev1).
  destruct (Hk a io1) as (io2 & E2 & Hput & Hread).
  exists io2. unfold Cpp.bind. rewrite E1, <- Ev1. auto.
Qed.

(** Without any region of interest among the wires read, [produce] puts
    its one empty collection for every divisor: [GetApaView] is not
    reached. *)
Lemma produce_without_roi (m : Finder) (io : Env) :
  (forall ws, wires_by_label (evt io) !! fWireProducerLabel m = Some ws ->
              Forall (fun w => SignalROI w = []) ws) ->
  exists io',
    produce m io = Returns tt io'
    /\ put_wires (evt io') = put_wires (evt io) ++ [[]]
    /\ wires_by_label (evt io') = wires_by_label (evt io).
Proof.
  intros Hroi. unfold produce. unfold Cpp.bind at 1.
  unfold getWires at 1. unfold Cpp.bind at 1, Cpp.get at 1, Cpp.ret at 1.
  set (wirelist := match wires_by_label (evt io) !! fWireProducerLabel m with
                   | Some ws => fill_ptr_vector ws
                   | None => []
                   end).
  assert (Hwl : Forall (fun wire => SignalROI (target wire) = []) wirelist).
  { subst wirelist. destruct (wires_by_label (evt io) !! fWireProducerLabel m) as [ws|];
      [|constructor].
    specialize (Hroi ws eq_refl). unfold fill_ptr_vector.
    assert (Hptr : forall i w, target (MkWirePtr i w) = w) by reflexivity.
    revert Hptr. generalize MkWirePtr as f.
    induction Hroi as [|w ws Hw _ IH]; intros f Hf; [constructor|].
    simpl. constructor; [rewrite Hf; exact Hw|].
    apply IH. intros i x. apply Hf. }
  clearbody wirelist. clear Hroi. revert io.
  match goal with |- forall io, exists io', ?c io = _ /\ _ => change (puts_one [] c) end.
  apply puts_one_bind; [destruct (3 <=? fLogLevel m); auto with keeps|]. intros _.
  apply puts_one_bind; [apply keeps_event_group_wires_no_roi, Hwl|]. intros groups.
  apply puts_one_bind; [apply keeps_event_sort_entries|]. intros _.
  apply puts_one_put.
Qed.

(** C10 as stated fails: with a channels-per-APA divisor of 0 and a wire
    that has a region of interest, [produce] does not return with a
    collection put into the event; the division in [GetApaView] is
    undefined. *)
Lemma produce_zero_divisor_puts_nothing :
  ~ exists io',
      produce (sample_finder 0 0) sample_world = Returns tt io'
      /\ put_wires (evt io') = put_wires (evt sample_world) ++ [[]]
      /\ wires_by_label (evt io') = wires_by_label (evt sample_world).
Proof. intros (io' & Hrun & _). vm_compute in Hrun. discriminate Hrun. Qed.

(** C10 (amended): on every event on which the division in [GetApaView]
    is defined (the channels-per-APA divisor is not 0, or no wire read has
    a region of interest), whatever wires the event holds, [produce]
    returns after putting exactly one wire collection into the event, and
    that collection is empty; the collections read are untouched. *)
Theorem produce_puts_one_empty (m : Finder) (io : Env) :
  to_unsigned (fNChanPerApa m) <> 0
  \/ (forall ws, wires_by_label (evt io) !! fWireProducerLabel m = Some ws ->
                 Forall (fun w => SignalROI w = []) ws) ->
  exists io',
    produce m io = Returns tt io'
    /\ put_wires (evt io') = put_wires (evt io) ++ [[]]
    /\ wires_by_label (evt io') = wires_by_label (evt io).
Proof.
  intros [Hdiv|Hroi]; [|exact (produce_without_roi m io Hroi)].
  revert io. change (puts_one [] (produce m)). unfold produce.
  apply puts_one_bind; [auto with keeps|]. intros wirelist.
  apply puts_one_bind; [destruct (3 <=? fLogLevel m); auto with keeps|]. intros _.
  apply puts_one_bind; [apply keeps_event_group_wires, Hdiv|]. intros groups.
  apply puts_one_bind; [apply keeps_event_sort_entries|]. intros _.
  apply puts_one_put.
Qed.

Lemma produce_puts_one_empty_witness :
  exists io',
    produce (sample_finder 3 2560) sample_world = Returns tt io'
    /\ put_wires (evt io') = put_wires (evt sample_world) ++ [[]]
    /\ wires_by_label (evt io') = wires_by_label (evt sample_world).
Proof.
  apply (produce_puts_one_empty (sample_finder 3 2560) sample_world).
  left. discriminate.
Defined.

(** With a zero divisor and a wire that has a region of interest the
    division in [GetApaView] is undefined. *)
Example produce_zero_divisor : produce (sample_finder 0 0) sample_world = Undefined.
Proof. reflexivity. Qed.

End ClusterFinderFacts.


(** ** The writer over one event *)

Module WriterEventFacts.

Import MVAWriter MVAWriterEvent WriterFacts.

Section Facts.

Context {score : Type} `{Score score}.

Implicit Types (w : MVAWriter score) (T : TypeInfo) (io : World score).

Lemma copy_scores_drop (src : list score) (i n : nat) :
  (i + n <= length src)%nat -> copy_scores src i n = Some (take n (drop i src)).
Proof.
  revert i. induction n as [|n IH]; intros i Hlen; [reflexivity|].
  cbn [copy_scores]. unfold MVAOutput in *. destruct (lookup_lt_is_Some_2 src i ltac:(lia)) as [x Hx].
  rewrite Hx, IH by lia. rewrite (drop_S _ _ _ Hx). reflexivity.
Qed.

Lemma copy_scores_all (src : list score) :
  copy_scores src 0 (length src) = Some src.
Proof. rewrite copy_scores_drop by lia. rewrite drop_0, firstn_all. reflexivity. Qed.

Lemma getOutput_outcome N T key w :
  getOutput N T key w =
    match fTypeHashToID w !! getProductHash T with
    | None => Throws (not_initialized T) w
    | Some id =>
        match fOutputs w !! id with
        | Some outs =>
            match outs !! key with
            | Some src =>
                match copy_scores src 0 N with
                | Some v => Returns v w
                | None => Undefined
                end
            | None => Undefined
            end
        | None => Undefined
        end
    end.
Proof.
  unfold getOutput, getProductID. run_cpp.
  destruct (fTypeHashToID w !! getProductHash T) as [id|]; [|reflexivity].
  run_cpp. destruct (fOutputs w !! id) as [outs|]; [|reflexivity].
  run_cpp. destruct (outs !! key) as [src|]; [|reflexivity].
  run_cpp. destruct (copy_scores src 0 N); reflexivity.
Qed.

(** X1: a first [initOutputs<T>] of the event returns the number of
    collections made so far as the new index, registers it for [T] (so that
    [getProductID<T>] finds it), holds [dataSize] vectors of [N] zeros
    readable through [getOutput<T>(key)] and nothing beyond them, and leaves
    the other registrations and collections as they were. *)
Theorem initOutputs_registers N T tag dataSize names w :
  descriptionExists w (getProductName T) = false ->
  exists w',
    initOutputs N T tag dataSize names w = Returns (length (fOutputs w)) w'
    /\ getProductID T w' = Returns (length (fOutputs w)) w'
    /\ (forall key, (key < dataSize)%nat ->
          getOutput N T key w' = Returns (replicate N zero_score) w')
    /\ (forall key, (dataSize <= key)%nat -> getOutput N T key w' = Undefined)
    /\ (forall T', getProductHash T' <> getProductHash T ->
          fTypeHashToID w' !! getProductHash T' = fTypeHashToID w !! getProductHash T')
    /\ (forall id, (id < length (fOutputs w))%nat -> fOutputs w' !! id = fOutputs w !! id).
Proof.
  intros Hex. eexists. split; [apply (initOutputs_fresh _ _ _ _ _ _ Hex)|].
  split; [|split; [|split; [|split]]].
  - apply getProductID_registered. simpl. apply lookup_insert_eq.
  - intros key Hkey. rewrite getOutput_outcome. simpl.
    rewrite lookup_insert_eq, list_lookup_middle by reflexivity.
    rewrite lookup_replicate_2 by exact Hkey.
    rewrite <- (length_replicate N zero_score) at 2. rewrite copy_scores_all. reflexivity.
  - intros key Hkey. rewrite getOutput_outcome. simpl.
    rewrite lookup_insert_eq, list_lookup_middle by reflexivity.
    rewrite lookup_ge_None_2; [reflexivity|]. rewrite length_replicate. exact Hkey.
  - intros T' Hne. simpl. apply lookup_insert_ne. congruence.
  - intros id Hid. simpl. apply lookup_app_l. exact Hid.
Qed.

Lemma setOutput_returns_inv id key values w w' :
  setOutput id key values w = Returns tt w' ->
  exists outs, fOutputs w !! id = Some outs /\ (key < length outs)%nat
    /\ w' = set_outputs (<[id := <[key := values]> outs]> (fOutputs w)) w.
Proof.
  rewrite setOutput_outcome. destruct (fOutputs w !! id) as [outs|]; [|discriminate].
  destruct (key <? length outs)%nat eqn:Hk; [|discriminate].
  intros [= <-]. exists outs. apply Nat.ltb_lt in Hk. auto.
Qed.

(** X2: what [setOutput(id, key, values)] stored for the index of a
    registered type is what [getOutput<T>(key)] returns, and the vectors at
    every other key or of every other collection read as before. *)
Theorem setOutput_getOutput N T id key (values : MVAOutput score) w w' :
  fTypeHashToID w !! getProductHash T = Some id ->
  length values = N ->
  setOutput id key values w = Returns tt w' ->
  getOutput N T key w' = Returns values w'
  /\ (forall T' key',
        fTypeHashToID w !! getProductHash T' <> Some id \/ key' <> key ->
        returned (getOutput N T' key' w') = returned (getOutput N T' key' w)).
Proof.
  intros Hid Hlen Hset.
  destruct (setOutput_returns_inv _ _ _ _ _ Hset) as (outs & Houts & Hkey & ->).
  assert (Hidlt : (id < length (fOutputs w))%nat) by (eapply lookup_lt_Some; eauto).
  split.
  - rewrite getOutput_outcome. simpl. rewrite Hid.
    rewrite list_lookup_insert_eq by exact Hidlt.
    rewrite list_lookup_insert_eq by exact Hkey.
    rewrite <- Hlen, copy_scores_all. reflexivity.
  - intros T' key' Hother. rewrite !getOutput_outcome. simpl.
    destruct (fTypeHashToID w !! getProductHash T') as [id'|]; [|reflexivity].
    destruct (decide (id' = id)) as [->|Hne].
    + destruct Hother as [Hc|Hk]; [congruence|].
      rewrite list_lookup_insert_eq by exact Hidlt. rewrite Houts.
      rewrite list_lookup_insert_ne by congruence.
      destruct (outs !! key') as [src|]; [|reflexivity].
      destruct (copy_scores src 0 N); reflexivity.
    + rewrite list_lookup_insert_ne by congruence.
      destruct (fOutputs w !! id') as [outs'|]; [|reflexivity].
      destruct (outs' !! key') as [src|]; [|reflexivity].
      destruct (copy_scores src 0 N); reflexivity.
Qed.

(** X3: [addOutput(id, values)] on an existing collection always returns;
    the new vector is read back by [getOutput<T>] at the key that was the
    length of the collection, and every vector stored before reads as
    before. *)
Theorem addOutput_appends N T id (outs : list (MVAOutput score))
    (values : MVAOutput score) w :
  fTypeHashToID w !! getProductHash T = Some id ->
  fOutputs w !! id = Some outs ->
  length values = N ->
  exists w',
    addOutput id values w = Returns tt w'
    /\ fOutputs w' !! id = Some (outs ++ [values])
    /\ getOutput N T (length outs) w' = Returns values w'
    /\ (forall T' key',
          fTypeHashToID w !! getProductHash T' <> Some id \/ (key' < length outs)%nat ->
          returned (getOutput N T' key' w') = returned (getOutput N T' key' w)).
Proof.
  intros Hid Houts Hlen.
  assert (Hidlt : (id < length (fOutputs w))%nat) by (eapply lookup_lt_Some; eauto).
  eexists. split; [rewrite addOutput_outcome, Houts; reflexivity|].
  split; [|split].
  - simpl. apply list_lookup_insert_eq. exact Hidlt.
  - rewrite getOutput_outcome. simpl. rewrite Hid.
    rewrite list_lookup_insert_eq by exact Hidlt.
    rewrite list_lookup_middle by reflexivity.
    rewrite <- Hlen, copy_scores_all. reflexivity.
  - intros T' key' Hother. rewrite !getOutput_outcome. simpl.
    destruct (fTypeHashToID w !! getProductHash T') as [id'|]; [|reflexivity].
    destruct (decide (id' = id)) as [->|Hne].
    + destruct Hother as [Hc|Hk]; [congruence|].
      rewrite list_lookup_insert_eq by exact Hidlt. rewrite Houts.
      rewrite lookup_app_l by exact Hk.
      destruct (outs !! key') as [src|]; [|reflexivity].
      destruct (copy_scores src 0 N); reflexivity.
    + rewrite list_lookup_insert_ne by congruence.
      destruct (fOutputs w !! id') as [outs'|]; [|reflexivity].
      destruct (outs' !! key') as [src|]; [|reflexivity].
      destruct (copy_scores src 0 N); reflexivity.
Qed.

(** *** What every point of an event has in common *)

Lemma idle_consistent w : idle w -> consistent w.
Proof.
  intros (Hids & Houts & Hds). unfold consistent. rewrite Hids, Houts, Hds.
  split; [reflexivity | apply map_Forall_empty].
Qed.

Lemma initOutputs_consistent N T tag dataSize names w id w' :
  initOutputs N T tag dataSize names w = Returns id w' -> consistent w -> consistent w'.
Proof.
  intros Hinit [Hlen Hids].
  pose proof (initOutputs_returns_inv _ _ _ _ _ _ _ _ Hinit) as Hex.
  rewrite (initOutputs_fresh _ _ _ _ _ _ Hex) in Hinit. injection Hinit as _ <-.
  unfold consistent. simpl. rewrite !length_app. simpl. split; [lia|].
  apply map_Forall_insert_2; [lia|].
  eapply map_Forall_impl; [exact Hids|]. simpl. intros _ i Hi. lia.
Qed.

Lemma within_event_consistent w w' : within_event w w' -> consistent w -> consistent w'.
Proof.
  induction 1 as [w|w w1 w2 N T tag dataSize names id _ IH Hstep
                  |w w1 w2 id key values _ IH Hstep
                  |w w1 w2 id values _ IH Hstep]; intros Hc.
  - exact Hc.
  - exact (initOutputs_consistent _ _ _ _ _ _ _ _ Hstep (IH Hc)).
  - destruct (setOutput_returns_inv _ _ _ _ _ Hstep) as (outs & _ & _ & ->).
    destruct (IH Hc) as [Hlen Hids]. unfold consistent. simpl.
    rewrite length_insert. auto.
  - rewrite addOutput_outcome in Hstep.
    destruct (fOutputs w1 !! id) as [outs|]; [|discriminate]. injection Hstep as <-.
    destruct (IH Hc) as [Hlen Hids]. unfold consistent. simpl.
    rewrite length_insert. auto.
Qed.

Lemma saveOutputs_passes io w ds :
  (forall n, n ∈ fRegisteredDataTypes w -> descriptionExists w n = true) ->
  fDescriptions w = Some ds ->
  length (fOutputs w) = length ds ->
  saveOutputs io w = Returns (saved w ds io) (clearEventData w).
Proof.
  intros Hall Hds Hlen. rewrite saveOutputs_outcome.
  destruct (find _ _) as [n|] eqn:Hfind.
  - apply find_some in Hfind as [Hin Hn]. apply list_elem_of_In in Hin.
    rewrite (Hall n Hin) in Hn. discriminate.
  - rewrite Hds, Hlen, Nat.eqb_refl. reflexivity.
Qed.

(** X4: at every point of an event (reached from the cleared state by
    successful [initOutputs], [setOutput] and [addOutput] calls) there are
    as many output collections as descriptions and every registered index
    has its collection.  So [saveOutputs] can fail there only for a
    registered type without description, never with the length error.  It
    returns as soon as every registered type is described, provided that
    at least one type is registered or [initOutputs] has run in the event
    (with neither the description container is null and the call is
    undefined). *)
Theorem in_event_consistent w :
  in_event w ->
  consistent w
  /\ (forall T id, fTypeHashToID w !! getProductHash T = Some id ->
        is_Some (fOutputs w !! id))
  /\ (forall io e, thrown (saveOutputs io w) = Some e ->
        exists n, n ∈ fRegisteredDataTypes w /\ descriptionExists w n = false
                  /\ e = no_description n)
  /\ (forall io,
        (forall n, n ∈ fRegisteredDataTypes w -> descriptionExists w n = true) ->
        fRegisteredDataTypes w <> [] \/ is_Some (fDescriptions w) ->
        exists ds,
          fDescriptions w = Some ds
          /\ saveOutputs io w = Returns (saved w ds io) (clearEventData w))
  /\ (fRegisteredDataTypes w = [] -> fDescriptions w = None ->
        forall io, saveOutputs io w = Undefined).
Proof.
  intros (w0 & Hidle & Hsteps).
  pose proof (within_event_consistent _ _ Hsteps (idle_consistent _ Hidle)) as Hc.
  split; [exact Hc|]. destruct Hc as [Hlen Hids]. split; [|split; [|split]].
  - intros T id Hid. apply lookup_lt_is_Some_2. exact (Hids _ _ Hid).
  - intros io e. rewrite saveOutputs_outcome.
    destruct (find _ _) as [n|] eqn:Hfind.
    + simpl. intros [= <-]. apply find_some in Hfind as [Hin Hn].
      exists n. apply list_elem_of_In in Hin. apply negb_true_iff in Hn. auto.
    + destruct (fDescriptions w) as [ds|]; [|discriminate].
      simpl in Hlen. rewrite Hlen, Nat.eqb_refl. discriminate.
  - intros io Hall Hsome.
    assert (Hds : exists ds, fDescriptions w = Some ds).
    { destruct Hsome as [Hreg|[ds Hds]]; [|eauto].
      destruct (fRegisteredDataTypes w) as [|n reg] eqn:E; [contradiction|].
      apply (descriptionExists_some w n), Hall. left. }
    destruct Hds as [ds Hds]. exists ds. split; [exact Hds|].
    apply (saveOutputs_passes io w ds Hall Hds).
    rewrite Hlen, Hds. reflexivity.
  - intros Hreg Hds io. rewrite saveOutputs_outcome, Hreg, Hds. reflexivity.
Qed.

(** X5: within an event the stored results are append-only: no output
    collection disappears or gets shorter, and the descriptions made so far
    stay, in their order, at the front of the description container. *)
Theorem within_event_append_only w w' :
  within_event w w' ->
  (forall id (outs : list (MVAOutput score)),
     fOutputs w !! id = Some outs ->
     exists outs', fOutputs w' !! id = Some outs' /\ (length outs <= length outs')%nat)
  /\ (forall ds, fDescriptions w = Some ds ->
        exists ds', fDescriptions w' = Some (ds ++ ds')).
Proof.
  induction 1 as [w|w w1 w2 N T tag dataSize names id _ IH Hstep
                  |w w1 w2 id key values _ IH Hstep
                  |w w1 w2 id values _ IH Hstep].
  - split; [eauto|]. intros ds ->. exists []. rewrite app_nil_r. reflexivity.
  - destruct IH as [IHo IHd].
    pose proof (initOutputs_returns_inv _ _ _ _ _ _ _ _ Hstep) as Hex.
    rewrite (initOutputs_fresh _ _ _ _ _ _ Hex) in Hstep. injection Hstep as _ <-.
    simpl. split.
    + intros i outs Hi. destruct (IHo i outs Hi) as (outs' & Hi' & Hle).
      exists outs'. split; [|exact Hle]. rewrite lookup_app_l; [exact Hi'|].
      eapply lookup_lt_Some; eauto.
    + intros ds Hds. destruct (IHd ds Hds) as (ds' & ->). simpl.
      eexists. rewrite <- app_assoc. reflexivity.
  - destruct IH as [IHo IHd].
    destruct (setOutput_returns_inv _ _ _ _ _ Hstep) as (outs1 & Hid & Hkey & ->).
    simpl. split; [|exact IHd].
    intros i outs Hi. destruct (IHo i outs Hi) as (outs' & Hi' & Hle).
    destruct (decide (i = id)) as [->|Hne].
    + rewrite list_lookup_insert_eq by (eapply lookup_lt_Some; eauto).
      eexists. split; [reflexivity|]. rewrite length_insert. congruence.
    + rewrite list_lookup_insert_ne by congruence. eauto.
  - destruct IH as [IHo IHd]. rewrite addOutput_outcome in Hstep.
    destruct (fOutputs w1 !! id) as [outs1|] eqn:Hid; [|discriminate].
    injection Hstep as <-. simpl. split; [|exact IHd].
    intros i outs Hi. destruct (IHo i outs Hi) as (outs' & Hi' & Hle).
    destruct (decide (i = id)) as [->|Hne].
    + rewrite list_lookup_insert_eq by (eapply lookup_lt_Some; eauto).
      eexists. split; [reflexivity|]. rewrite length_app. simpl. 
      assert (outs' = outs1) by congruence. subst. lia.
    + rewrite list_lookup_insert_ne by congruence. eauto.
Qed.

(** X6: in an event in which [initOutputs] has not been called,
    [saveOutputs] throws for the first registered type, and with no type
    registered it dereferences the null description container. *)
Theorem saveOutputs_idle io w :
  idle w ->
  saveOutputs io w =
    match fRegisteredDataTypes w with
    | n :: _ => Throws (no_description n) w
    | [] => Undefined
    end.
Proof.
  intros (_ & _ & Hds). rewrite saveOutputs_outcome.
  destruct (fRegisteredDataTypes w) as [|n types]; simpl.
  - rewrite Hds. reflexivity.
  - unfold descriptionExists. rewrite Hds. reflexivity.
Qed.

(** *** Whole passes: declaring, initialising, saving *)

Lemma produces_using_outcome T w :
  produces_using T w
  = Returns tt
      (MkWriter
         (fProducer w
            ++ (if fIsDescriptionRegistered w then []
                else [DeclareDescriptions (fInstanceName w)])
            ++ [DeclareOutputs (fInstanceName w +:+ getProductName T)])
         (fInstanceName w) (fRegisteredDataTypes w ++ [getProductName T]) true
         (fTypeHashToID w) (fOutputs w) (fDescriptions w)).
Proof.
  unfold produces_using. run_cpp.
  destruct (fIsDescriptionRegistered w) eqn:Hflag; simpl;
    unfold set_registered, set_producer; simpl.
  - rewrite Hflag. reflexivity.
  - rewrite <- app_assoc. reflexivity.
Qed.

(** X7: however many types a module declares with [produces_using], the
    description collection is declared once, before the first output
    collection (and not at all if it was declared before); each call
    declares one output collection under instance name + product name and
    records the product name, in call order; the per-event members are not
    touched. *)
Theorem declare_all_declares (Ts : list TypeInfo) w :
  exists w',
    declare_all Ts w = Returns tt w'
    /\ fProducer w'
       = fProducer w
         ++ (if fIsDescriptionRegistered w || bool_decide (Ts = []) then []
             else [DeclareDescriptions (fInstanceName w)])
         ++ ((fun T => DeclareOutputs (fInstanceName w +:+ getProductName T)) <$> Ts)
    /\ fRegisteredDataTypes w' = fRegisteredDataTypes w ++ (getProductName <$> Ts)
    /\ fIsDescriptionRegistered w' = fIsDescriptionRegistered w || negb (bool_decide (Ts = []))
    /\ fInstanceName w' = fInstanceName w
    /\ fTypeHashToID w' = fTypeHashToID w /\ fOutputs w' = fOutputs w
    /\ fDescriptions w' = fDescriptions w.
Proof.
  revert w. induction Ts as [|T Ts IH]; intros w.
  - exists w. simpl. rewrite orb_true_r, orb_false_r, !app_nil_r. auto 10.
  - unfold declare_all. cbn [for_each]. unfold Cpp.bind at 1.
    rewrite produces_using_outcome.
    destruct (IH (MkWriter
         (fProducer w
            ++ (if fIsDescriptionRegistered w then []
                else [DeclareDescriptions (fInstanceName w)])
            ++ [DeclareOutputs (fInstanceName w +:+ getProductName T)])
         (fInstanceName w) (fRegisteredDataTypes w ++ [getProductName T]) true
         (fTypeHashToID w) (fOutputs w) (fDescriptions w)))
      as (w' & Hrun & Hp & Hr & Hf & Hi & Hids & Ho & Hd).
    exists w'. split; [exact Hrun|]. simpl in *.
    rewrite Hp, Hr, Hf, Hi, Hids, Ho, Hd.
    rewrite ?orb_false_r, ?orb_true_r. simpl.
    repeat split; try reflexivity.
    + destruct (fIsDescriptionRegistered w); simpl; rewrite <- ?app_assoc; reflexivity.
    + rewrite <- app_assoc. reflexivity.
Qed.

Lemma append_cancel (p a b : string) : p +:+ a = p +:+ b -> a = b.
Proof. induction p as [|c p IH]; simpl; [auto|]. intros [= E]. auto. Qed.

Lemma init_all_outcome N (inputs : list (TypeInfo * InputTag * nat)) w :
  NoDup ((fun i => getProductName i.1.1) <$> inputs) ->
  (forall i, i ∈ inputs -> descriptionExists w (getProductName i.1.1) = false) ->
  exists w',
    init_all N inputs w = Returns tt w'
    /\ fOutputs w' = fOutputs w ++ (zeros_of N <$> inputs)
    /\ fDescriptions w'
       = match inputs with
         | [] => fDescriptions w
         | _ => Some (default [] (fDescriptions w)
                      ++ (description_of (fInstanceName w) <$> inputs))
         end
    /\ fProducer w' = fProducer w /\ fInstanceName w' = fInstanceName w
    /\ fRegisteredDataTypes w' = fRegisteredDataTypes w
    /\ fIsDescriptionRegistered w' = fIsDescriptionRegistered w.
Proof.
  revert w. induction inputs as [|i inputs IH]; intros w Hnd Hfresh.
  - exists w. simpl. rewrite app_nil_r. auto 10.
  - rewrite fmap_cons in Hnd. inversion Hnd as [|? ? Hnotin Hnd']; subst.
    clear Hnd. rename Hnd' into Hnd.
    assert (Hi : descriptionExists w (getProductName i.1.1) = false)
      by (apply Hfresh; left).
    unfold init_all. cbn [for_each]. unfold Cpp.bind at 1. unfold Cpp.bind at 1.
    rewrite (initOutputs_fresh _ _ _ _ _ _ Hi).
    set (w1 := MkWriter _ _ _ _ _ _ _).
    assert (Hstep : initOutputs N i.1.1 i.1.2 i.2 (replicate N "") w = Returns (length (fOutputs w)) w1)
      by apply (initOutputs_fresh _ _ _ _ _ _ Hi).
    destruct (IH w1 Hnd) as (w' & Hrun & Ho & Hd & Hp & Hn & Hr & Hf).
    { intros j Hj. rewrite (descriptionExists_init _ _ _ _ _ _ _ _ _ Hstep).
      rewrite (Hfresh j) by (right; exact Hj). simpl.
      apply String.eqb_neq. intros E. apply append_cancel in E.
      apply Hnotin. rewrite E. apply list_elem_of_fmap. exists j. auto. }
    exists w'. split; [exact Hrun|]. rewrite Ho, Hd, Hp, Hn, Hr, Hf. subst w1. simpl.
    repeat split; try reflexivity.
    + rewrite <- app_assoc. reflexivity.
    + destruct inputs; [rewrite ?app_nil_r; reflexivity|].
      simpl. rewrite <- app_assoc. reflexivity.
Qed.

Lemma descriptionExists_elem w tname ds :
  fDescriptions w = Some ds ->
  fInstanceName w +:+ tname ∈ outputInstance <$> ds ->
  descriptionExists w tname = true.
Proof.
  intros Hds Hin. unfold descriptionExists. rewrite Hds.
  apply existsb_exists. apply list_elem_of_fmap in Hin as (d & Hd & Hin).
  exists d. split; [apply list_elem_of_In, Hin | apply String.eqb_eq; auto].
Qed.

(** X8: a writer in the cleared state on which each input type of a
    non-empty list of distinct product names is initialised once, these
    names covering the registered ones, saves without error: the event
    receives one output collection per input, in the order of the
    [initOutputs] calls and under instance name + product name, then the
    descriptions, and the writer is back in the state before the event. *)
Theorem init_all_then_save N (inputs : list (TypeInfo * InputTag * nat)) w io :
  idle w ->
  inputs <> [] ->
  NoDup ((fun i => getProductName i.1.1) <$> inputs) ->
  (forall n, n ∈ fRegisteredDataTypes w ->
             n ∈ (fun i => getProductName i.1.1) <$> inputs) ->
  exists w',
    init_all N inputs w = Returns tt w'
    /\ saveOutputs io w'
       = Returns
           (MkWorld
              (event io
                 ++ zip_with OutputProduct (zeros_of N <$> inputs)
                      ((fun i => fInstanceName w +:+ getProductName i.1.1) <$> inputs)
                 ++ [DescriptionProduct (description_of (fInstanceName w) <$> inputs)
                                        (fInstanceName w)])
              (cout io ++ ["put..."; "...done"; "reset ok"]))
           w.
Proof.
  intros (Hids & Houts & Hds) Hne Hnd Hreg.
  destruct (init_all_outcome N inputs w Hnd) as (w' & Hrun & Ho & Hd & Hp & Hn & Hr & Hf).
  { intros i _. unfold descriptionExists. rewrite Hds. reflexivity. }
  exists w'. split; [exact Hrun|].
  rewrite Hds, Houts in *. simpl in Ho, Hd.
  assert (Hd' : fDescriptions w' = Some (description_of (fInstanceName w) <$> inputs))
    by (destruct inputs; [contradiction | exact Hd]).
  assert (Hall : forall n, n ∈ fRegisteredDataTypes w' -> descriptionExists w' n = true).
  { intros n Hin. rewrite Hr in Hin. apply (descriptionExists_elem _ _ _ Hd').
    rewrite Hn, <- list_fmap_compose.
    apply Hreg in Hin. apply list_elem_of_fmap in Hin as (i & -> & Hin).
    apply list_elem_of_fmap. exists i. auto. }
  assert (Hlen : length (fOutputs w') = length (description_of (fInstanceName w) <$> inputs))
    by (rewrite Ho, !length_fmap; reflexivity).
  rewrite (saveOutputs_passes io w' _ Hall Hd' Hlen).
  unfold saved. rewrite Ho, Hn. f_equal.
  - rewrite <- list_fmap_compose. reflexivity.
  - destruct w as [p i r f ids o d]. simpl in *. subst.
    destruct w' as [p' i' r' f' ids' o' d']. simpl in *. subst. reflexivity.
Qed.

End Facts.

Lemma initOutputs_registers_witness :
  getProductID hit_type hits_writer = Returns 0%nat hits_writer.
Proof.
  destruct (initOutputs_registers 4 hit_type hit_tag 2 [] declared_writer eq_refl)
    as (w' & Hinit & Hid & _).
  injection Hinit as <-. exact Hid.
Defined.

Lemma setOutput_getOutput_witness :
  getOutput 4 hit_type 1
    (set_outputs [[ [0; 0; 0; 0]; [1; 0; 0; 0] ]]%Qc hits_writer)
  = Returns [1; 0; 0; 0]%Qc (set_outputs [[ [0; 0; 0; 0]; [1; 0; 0; 0] ]]%Qc hits_writer).
Proof.
  exact (proj1 (setOutput_getOutput 4 hit_type 0 1 [1; 0; 0; 0]%Qc hits_writer _
                  eq_refl eq_refl eq_refl)).
Defined.

Lemma addOutput_appends_witness :
  exists w', addOutput 0 [1; 0; 0; 0]%Qc hits_writer = Returns tt w'
             /\ getOutput 4 hit_type 2 w' = Returns [1; 0; 0; 0]%Qc w'.
Proof.
  destruct (addOutput_appends 4 hit_type 0 [ [0; 0; 0; 0]; [0; 0; 0; 0] ]%Qc
              [1; 0; 0; 0]%Qc hits_writer eq_refl eq_refl eq_refl)
    as (w' & Hadd & _ & Hget & _).
  exists w'. split; assumption.
Defined.

Lemma hits_writer_in_event : in_event hits_writer.
Proof.
  exists declared_writer. split; [repeat split|].
  apply (after_init declared_writer declared_writer hits_writer 4 hit_type hit_tag 2 [] 0).
  - apply same_point.
  - reflexivity.
Defined.

Lemma in_event_consistent_witness :
  consistent hits_writer
  /\ exists ds,
       fDescriptions hits_writer = Some ds
       /\ saveOutputs empty_world hits_writer
          = Returns (saved hits_writer ds empty_world) declared_writer.
Proof.
  split; [exact (proj1 (in_event_consistent hits_writer hits_writer_in_event))|].
  apply (proj1 (proj2 (proj2 (proj2 (in_event_consistent hits_writer hits_writer_in_event))))
           empty_world).
  - intros n Hin. apply list_elem_of_In in Hin. destruct Hin as [<-|[]]. reflexivity.
  - left. discriminate.
Defined.

Lemma hits_writer_busy : within_event hits_writer busy_writer.
Proof.
  eapply (after_init _ _ _ 4 cluster_type cluster_tag 0 [] 1);
    [eapply (after_add _ _ _ 0 [1; 0; 0; 0]%Qc);
       [eapply (after_set _ _ _ 0 1 [1; 0; 0; 0]%Qc); [apply same_point|]|]|];
    reflexivity.
Defined.

Lemma within_event_append_only_witness :
  (exists outs', fOutputs busy_writer !! 0%nat = Some outs' /\ (2 <= length outs')%nat)
  /\ exists ds', fDescriptions busy_writer
                 = Some ([MkDescription "linecluster" "emtrackrecob::Hit"] ++ ds').
Proof.
  split.
  - exact (proj1 (within_event_append_only hits_writer busy_writer hits_writer_busy)
             0%nat [ [0; 0; 0; 0]; [0; 0; 0; 0] ]%Qc eq_refl).
  - exact (proj2 (within_event_append_only hits_writer busy_writer hits_writer_busy)
             [MkDescription "linecluster" "emtrackrecob::Hit"] eq_refl).
Defined.

Lemma saveOutputs_idle_witness :
  saveOutputs empty_world declared_writer
  = Throws (no_description "recob::Hit") declared_writer.
Proof.
  exact (saveOutputs_idle empty_world declared_writer (conj eq_refl (conj eq_refl eq_refl))).
Defined.

Lemma init_all_then_save_witness :
  exists w',
    init_all 4 [(hit_type, hit_tag, 2%nat)] declared_writer = Returns tt w'
    /\ saveOutputs empty_world w'
       = Returns
           (MkWorld
              [OutputProduct [[0; 0; 0; 0]; [0; 0; 0; 0]]%Qc "emtrackrecob::Hit";
               DescriptionProduct [MkDescription "linecluster" "emtrackrecob::Hit"] "emtrack"]
              ["put..."; "...done"; "reset ok"])
           declared_writer.
Proof.
  apply (init_all_then_save 4 [(hit_type, hit_tag, 2%nat)] declared_writer empty_world).
  - repeat split.
  - discriminate.
  - apply NoDup_singleton.
  - intros n Hn. exact Hn.
Defined.

End WriterEventFacts.

(** ** Printing collections *)

Module PrintCollFacts.

Import triton_printColl.

Lemma append_assoc (a b c : string) : (a +:+ b) +:+ c = a +:+ (b +:+ c).
Proof.
  induction a as [|x a IH]; [reflexivity|].
  change (String x ((a +:+ b) +:+ c) = String x (a +:+ b +:+ c)).
  rewrite IH. reflexivity.
Qed.

Lemma append_empty_r (a : string) : a +:+ "" = a.
Proof.
  induction a as [|x a IH]; [reflexivity|].
  change (String x (a +:+ "") = String x a). rewrite IH. reflexivity.
Qed.

(** After the first element every element is written behind a delimiter. *)
Lemma joiner_rest (delim : string) (elements : list string) (acc : string) :
  written (fold_left (joiner_put delim) elements (MkJoiner acc false))
  = acc +:+ foldr (fun e rest => delim +:+ e +:+ rest) "" elements.
Proof.
  revert acc. induction elements as [|e elements IH]; intros acc.
  - simpl. rewrite append_empty_r. reflexivity.
  - cbn [fold_left foldr]. unfold joiner_put at 2. cbn [written first].
    rewrite IH, !append_assoc. reflexivity.
Qed.

Lemma concat_delim (delim : string) (e : string) (elements : list string) :
  String.concat delim (e :: elements)
  = e +:+ foldr (fun x rest => delim +:+ x +:+ rest) "" elements.
Proof.
  revert e. induction elements as [|x elements IH]; intros e.
  - simpl. rewrite append_empty_r. reflexivity.
  - change (String.concat delim (e :: x :: elements))
      with (e +:+ delim +:+ String.concat delim (x :: elements)).
    rewrite IH. reflexivity.
Qed.

Lemma foldr_behind (delim : string) (elements : list string) (rest : string) :
  foldr (fun x r => delim +:+ x +:+ r) rest elements
  = foldr (fun x r => delim +:+ x +:+ r) "" elements +:+ rest.
Proof.
  induction elements as [|x elements IH]; [reflexivity|].
  cbn [foldr]. rewrite IH, !append_assoc. reflexivity.
Qed.

Lemma printColl_cons {C} (show : C -> string) (c : C) (coll : list C) (delim : string) :
  printColl show (c :: coll) delim
  = show c +:+ foldr (fun x rest => delim +:+ x +:+ rest) "" (show <$> coll).
Proof.
  unfold printColl. cbn [fmap list_fmap fold_left]. unfold joiner_put at 2.
  cbn [written first]. rewrite joiner_rest. reflexivity.
Qed.

(** X9: [printColl] writes the elements in order with the delimiter
    between consecutive ones and nowhere else: nothing for an empty
    collection, no delimiter at the start or the end; hence the print of
    two non-empty collections one after the other is the two prints with
    one delimiter in between. *)
Theorem printColl_joins {C : Type} (show : C -> string) (coll : list C) (delim : string) :
  printColl show coll delim = String.concat delim (show <$> coll)
  /\ (forall front back, coll = front ++ back -> front <> [] -> back <> [] ->
        printColl show coll delim
        = printColl show front delim +:+ delim +:+ printColl show back delim).
Proof.
  split.
  - destruct coll as [|c coll]; [reflexivity|].
    rewrite printColl_cons, fmap_cons, concat_delim. reflexivity.
  - intros [|f front] [|b back] -> Hf Hb; try contradiction.
    change ((f :: front) ++ b :: back) with (f :: (front ++ b :: back)).
    rewrite !printColl_cons, fmap_app, fmap_cons, foldr_app. cbn [foldr].
    rewrite foldr_behind, !append_assoc. reflexivity.
Qed.

Example printColl_three :
  printColl id ["1"; "3"; "224"] ", " = "1, 3, 224".
Proof. reflexivity. Qed.

End PrintCollFacts.

(** ** Grouping and ordering of wires *)

Module WireGroupFacts.

Import WireClusterFinder WireGroups.

Section Insertion.

Variable before : WirePtr -> WirePtr -> bool.
Variable R : WirePtr -> WirePtr -> Prop.
Hypothesis before_R : forall a b, before a b = true -> R a b.
Hypothesis not_before_R : forall a b, before a b = false -> R b a.
Hypothesis R_trans : forall a b c, R a b -> R b c -> R a c.

Lemma insert_by_perm (x : WirePtr) (l : list WirePtr) : insert_by before x l ≡ₚ x :: l.
Proof.
  induction l as [|y l IH]; simpl; [reflexivity|].
  destruct (before y x); [|reflexivity].
  rewrite IH. apply Permutation_swap.
Qed.

Lemma insert_by_sorted (x : WirePtr) (l : list WirePtr) :
  StronglySorted R l -> StronglySorted R (insert_by before x l).
Proof.
  induction 1 as [|y l Hl IH Hy]; simpl.
  - repeat constructor.
  - destruct (before y x) eqn:Hb.
    + constructor; [exact IH|].
      rewrite insert_by_perm. constructor; [apply before_R, Hb | exact Hy].
    + constructor; [constructor; assumption|].
      constructor; [apply not_before_R, Hb|].
      eapply Forall_impl; [exact Hy|]. intros z Hz.
      exact (R_trans _ _ _ (not_before_R _ _ Hb) Hz).
Qed.

Lemma insertion_sort (l : list WirePtr) :
  foldr (insert_by before) [] l ≡ₚ l /\ StronglySorted R (foldr (insert_by before) [] l).
Proof.
  induction l as [|x l [IHp IHs]]; simpl.
  - split; [reflexivity | constructor].
  - split; [rewrite insert_by_perm, IHp; reflexivity | apply insert_by_sorted, IHs].
Qed.

End Insertion.

(** X10: [SortWirePtrByChannel] rearranges the vector, losing and adding
    no wire, so that the channels never decrease ([increasing]) or never
    increase (otherwise) along it. *)
Theorem SortWirePtrByChannel_sorts (vec : list WirePtr) (increasing : bool) :
  SortWirePtrByChannel vec increasing ≡ₚ vec
  /\ StronglySorted (by_channel increasing) (SortWirePtrByChannel vec increasing).
Proof.
  unfold SortWirePtrByChannel, by_channel. destruct increasing.
  - apply insertion_sort; intros; lia.
  - apply insertion_sort; intros; lia.
Qed.

(** X11: for a channel below 2^32 and a per-APA count in [1, 2^31), the
    count being at least 2 or the channel below 2^31, [GetApaView] returns
    the wire's view with the APA number [apa] for which
    [n * apa <= channel < n * (apa + 1)], and this number is not negative. *)
Theorem GetApaView_quotient (m : Finder) (wire : WirePtr) (io : Env) :
  0 <= Channel (target wire) < 2 ^ 32 ->
  0 < fNChanPerApa m < 2 ^ 31 ->
  2 <= fNChanPerApa m \/ Channel (target wire) < 2 ^ 31 ->
  exists apa,
    GetApaView m wire io = Returns (apa, View (target wire)) io
    /\ 0 <= apa
    /\ fNChanPerApa m * apa <= Channel (target wire) < fNChanPerApa m * (apa + 1).
Proof.
  intros Hc Hn Hsmall. exists (Channel (target wire) / fNChanPerApa m).
  unfold GetApaView, to_unsigned, to_int.
  rewrite (Z.mod_small (fNChanPerApa m)) by lia.
  rewrite (Z.mod_small (Channel (target wire))) by lia.
  destruct (Z.eqb_spec (fNChanPerApa m) 0) as [E|_]; [lia|].
  assert (Hq : 0 <= Channel (target wire) / fNChanPerApa m < 2 ^ 31).
  { split; [apply Z.div_pos; lia|].
    apply Z.div_lt_upper_bound; [lia|]. destruct Hsmall; nia. }
  rewrite Z.mod_small by lia.
  replace (Channel (target wire) / fNChanPerApa m + 2 ^ 31 - 2 ^ 31)
    with (Channel (target wire) / fNChanPerApa m) by lia.
  split; [reflexivity|]. split; [lia|].
  pose proof (Z.mul_div_le (Channel (target wire)) (fNChanPerApa m) ltac:(lia)).
  pose proof (Z.mul_succ_div_gt (Channel (target wire)) (fNChanPerApa m) ltac:(lia)).
  lia.
Qed.

Lemma GetApaView_quotient_witness :
  exists apa,
    GetApaView (sample_finder 0 2560) (MkWirePtr 0 (MkWire 2561 0 [])) sample_world
    = Returns (apa, 0) sample_world
    /\ 0 <= apa /\ 2560 * apa <= 2561 < 2560 * (apa + 1).
Proof.
  apply (GetApaView_quotient (sample_finder 0 2560) (MkWirePtr 0 (MkWire 2561 0 []))
           sample_world); simpl; lia.
Defined.

(** With one channel per APA, a channel from 2^31 on gets a negative APA
    number through the conversion to [int]. *)
Example GetApaView_wraps :
  GetApaView (sample_finder 0 1) (MkWirePtr 0 (MkWire 3000000000 0 [])) sample_world
  = Returns (-1294967296, 0) sample_world.
Proof. reflexivity. Qed.

(** *** The map of the pre-filter loop *)

Lemma apa_lt_trans (a b c : ApaView) : apa_lt a b -> apa_lt b c -> apa_lt a c.
Proof.
  unfold apa_lt, apa_ltb. destruct a, b, c. simpl.
  rewrite !orb_true_iff, !andb_true_iff, !Z.ltb_lt, !Z.eqb_eq. lia.
Qed.

Lemma apa_lt_irrefl (a : ApaView) : ~ apa_lt a a.
Proof.
  unfold apa_lt, apa_ltb. destruct a. simpl.
  rewrite !orb_true_iff, !andb_true_iff, !Z.ltb_lt, !Z.eqb_eq. lia.
Qed.

Lemma apa_eqb_eq (a b : ApaView) : apa_eqb a b = true <-> a = b.
Proof.
  unfold apa_eqb. destruct a, b. simpl. rewrite andb_true_iff, !Z.eqb_eq.
  split; [intros [-> ->]; reflexivity | intros [= -> ->]; auto].
Qed.

Lemma apa_lt_total (a b : ApaView) : apa_eqb a b = false -> apa_ltb a b = false -> apa_lt b a.
Proof.
  unfold apa_lt, apa_eqb, apa_ltb. destruct a, b. simpl.
  rewrite !orb_false_iff, !andb_false_iff, !orb_true_iff, !andb_true_iff,
    !Z.ltb_lt, !Z.ltb_ge, !Z.eqb_eq, !Z.eqb_neq. lia.
Qed.

Lemma push_back_keys (Q : ApaView -> Prop) k x (groups : list (ApaView * list WirePtr)) :
  Q k -> Forall Q groups.*1 -> Forall Q (push_back k x groups).*1.
Proof.
  intros Hk. induction groups as [|[k' v] groups IH]; simpl; intros Hall.
  - repeat constructor. exact Hk.
  - apply Forall_cons in Hall as [Hk' Hall].
    destruct (apa_eqb k k'); [|destruct (apa_ltb k k')]; simpl.
    + constructor; assumption.
    + repeat constructor; assumption.
    + constructor; [assumption | apply IH, Hall].
Qed.

Lemma push_back_sorted k x (groups : list (ApaView * list WirePtr)) :
  StronglySorted apa_lt groups.*1 -> StronglySorted apa_lt (push_back k x groups).*1.
Proof.
  induction groups as [|[k' v] groups IH]; simpl; intros Hs.
  - repeat constructor.
  - apply StronglySorted_inv in Hs as [Hs Hk'].
    destruct (apa_eqb k k') eqn:He; [|destruct (apa_ltb k k') eqn:Hl]; simpl.
    + constructor; assumption.
    + constructor; [constructor; assumption|].
      constructor; [exact Hl|].
      eapply Forall_impl; [exact Hk'|]. intros z Hz. exact (apa_lt_trans _ _ _ Hl Hz).
    + constructor; [apply IH, Hs|].
      apply push_back_keys; [apply apa_lt_total; assumption | exact Hk'].
Qed.

Lemma push_back_has_key k x (groups : list (ApaView * list WirePtr)) :
  k ∈ (push_back k x groups).*1
  /\ (forall k', k' ∈ groups.*1 -> k' ∈ (push_back k x groups).*1).
Proof.
  induction groups as [|[k' v] groups [IHk IHo]]; simpl.
  - split; [left | intros ? []%elem_of_nil].
  - destruct (apa_eqb k k') eqn:He; [|destruct (apa_ltb k k')]; simpl.
    + apply apa_eqb_eq in He as ->. split; [left | auto].
    + split; [left | intros; right; assumption].
    + split; [right; exact IHk|].
      intros k'' [->|Hin]%elem_of_cons; [left | right; auto].
Qed.

Lemma filed_under_snoc m k done x :
  filed_under m k (done ++ [x])
  = filed_under m k done
    ++ (if has_roi x && apa_eqb (apaViewOf m x) k then [x] else []).
Proof. unfold filed_under. rewrite List.filter_app. reflexivity. Qed.

Lemma filed_under_nil m k done :
  (forall wire, wire ∈ done -> has_roi wire = true -> apaViewOf m wire <> k) ->
  filed_under m k done = [].
Proof.
  intros Hnot. unfold filed_under. induction done as [|w done IH]; [reflexivity|].
  simpl. destruct (has_roi w) eqn:Hr; simpl.
  - destruct (apa_eqb (apaViewOf m w) k) eqn:He.
    + apply apa_eqb_eq in He. exfalso. exact (Hnot w ltac:(left) Hr He).
    + apply IH. intros w' Hin. apply Hnot. right. exact Hin.
  - apply IH. intros w' Hin. apply Hnot. right. exact Hin.
Qed.

Lemma key_elem (g : ApaView * list WirePtr) (groups : list (ApaView * list WirePtr)) :
  g ∈ groups -> g.1 ∈ groups.*1.
Proof. intros Hin. apply list_elem_of_fmap. exists g. auto. Qed.

(** The entries after one [map[k].push_back(x)]. *)
Lemma push_back_elem k x (groups : list (ApaView * list WirePtr)) g :
  StronglySorted apa_lt groups.*1 ->
  g ∈ push_back k x groups ->
  (g ∈ groups /\ g.1 <> k)
  \/ (g.1 = k /\ ((exists v, (k, v) ∈ groups /\ g.2 = v ++ [x])
                   \/ ((k ∉ groups.*1) /\ g.2 = [x]))).
Proof.
  induction groups as [|[k' v] groups IH]; simpl; intros Hs Hin.
  - apply list_elem_of_singleton in Hin as ->. right. split; [reflexivity|].
    right. split; [apply not_elem_of_nil | reflexivity].
  - apply StronglySorted_inv in Hs as [Hs Hk']. rewrite Forall_forall in Hk'.
    destruct (apa_eqb k k') eqn:He; [|destruct (apa_ltb k k') eqn:Hl].
    + apply apa_eqb_eq in He. subst k'.
      apply elem_of_cons in Hin as [->|Hin].
      * right. split; [reflexivity|]. left. exists v. split; [left | reflexivity].
      * left. split; [right; exact Hin|].
        intros E. apply (apa_lt_irrefl k). rewrite <- E at 2.
        apply Hk', key_elem, Hin.
    + apply elem_of_cons in Hin as [->|Hin].
      * right. split; [reflexivity|]. right. split; [|reflexivity].
        intros [->|Hin]%elem_of_cons; [exact (apa_lt_irrefl _ Hl)|].
        exact (apa_lt_irrefl _ (apa_lt_trans _ _ _ Hl (Hk' _ Hin))).
      * left. split; [exact Hin|]. intros E.
        apply elem_of_cons in Hin as [->|Hin].
        -- simpl in E. subst k'. exact (apa_lt_irrefl _ Hl).
        -- apply (apa_lt_irrefl k). rewrite <- E at 2.
           exact (apa_lt_trans _ _ _ Hl (Hk' _ (key_elem _ _ Hin))).
    + assert (Hne : k' <> k).
      { intros ->. rewrite (proj2 (apa_eqb_eq k k) eq_refl) in He. discriminate. }
      apply elem_of_cons in Hin as [->|Hin].
      * left. split; [left | exact Hne].
      * destruct (IH Hs Hin) as [[Hg Hgk]|[Hgk [(v0 & Hv0 & Hg)|[Hfresh Hg]]]].
        -- left. split; [right; exact Hg | exact Hgk].
        -- right. split; [exact Hgk|]. left. exists v0. split; [right; exact Hv0 | exact Hg].
        -- right. split; [exact Hgk|]. right. split; [|exact Hg].
           intros [E|Hin']%elem_of_cons; [congruence | exact (Hfresh Hin')].
Qed.

Lemma push_back_filed m done x (groups : list (ApaView * list WirePtr)) :
  has_roi x = true ->
  StronglySorted apa_lt groups.*1 ->
  (apaViewOf m x ∉ groups.*1 -> filed_under m (apaViewOf m x) done = []) ->
  Forall (fun g => g.2 = filed_under m g.1 done /\ g.2 <> []) groups ->
  Forall (fun g => g.2 = filed_under m g.1 (done ++ [x]) /\ g.2 <> [])
         (push_back (apaViewOf m x) x groups).
Proof.
  intros Hroi Hs Hnew Hall. rewrite Forall_forall in Hall. apply Forall_forall.
  intros g Hin. rewrite filed_under_snoc, Hroi. simpl.
  destruct (push_back_elem _ _ _ _ Hs Hin)
    as [[Hg Hgk]|[Hgk [(v0 & Hv0 & Hg)|[Hfresh Hg]]]].
  - destruct (apa_eqb (apaViewOf m x) g.1) eqn:He.
    + apply apa_eqb_eq in He. congruence.
    + rewrite app_nil_r. apply Hall, Hg.
  - rewrite Hgk, (proj2 (apa_eqb_eq _ _) eq_refl), Hg.
    destruct (Hall _ Hv0) as [Hv _]. simpl in Hv. subst v0. split; [reflexivity|].
    intros E. apply app_eq_nil in E as [_ E]. discriminate.
  - rewrite Hgk, (proj2 (apa_eqb_eq _ _) eq_refl), Hg, (Hnew Hfresh).
    split; [reflexivity | discriminate].
Qed.

Lemma grouped_push_back m done x (groups : list (ApaView * list WirePtr)) :
  has_roi x = true ->
  grouped m done groups ->
  grouped m (done ++ [x]) (push_back (apaViewOf m x) x groups).
Proof.
  intros Hroi (Hs & Hall & Hkeys). split; [|split].
  - apply push_back_sorted, Hs.
  - apply push_back_filed; try assumption.
    intros Hfresh. apply filed_under_nil. intros w Hin Hr E.
    apply Hfresh. rewrite <- E. exact (Hkeys w Hin Hr).
  - intros w [Hin|Hin%list_elem_of_singleton]%elem_of_app Hr.
    + apply (proj2 (push_back_has_key _ _ _)). exact (Hkeys w Hin Hr).
    + subst w. apply (proj1 (push_back_has_key _ _ _)).
Qed.

Lemma grouped_skip m done x (groups : list (ApaView * list WirePtr)) :
  has_roi x = false ->
  grouped m done groups -> grouped m (done ++ [x]) groups.
Proof.
  intros Hroi (Hs & Hall & Hkeys). split; [exact Hs|split].
  - eapply Forall_impl; [exact Hall|]. intros g [Hg Hnil]. split; [|exact Hnil].
    rewrite filed_under_snoc, Hroi. simpl. rewrite app_nil_r. exact Hg.
  - intros w [Hin|Hin%list_elem_of_singleton]%elem_of_app Hr.
    + exact (Hkeys w Hin Hr).
    + subst w. congruence.
Qed.

Lemma group_wires_grouped (m : Finder) (wirelist done : list WirePtr)
    (acc : list (ApaView * list WirePtr)) (io : Env) :
  to_unsigned (fNChanPerApa m) <> 0 ->
  grouped m done acc ->
  exists groups,
    group_wires m wirelist acc io = Returns groups io
    /\ grouped m (done ++ wirelist) groups.
Proof.
  intros Hdiv. revert done acc.
  induction wirelist as [|wire rest IH]; intros done acc Hacc.
  - exists acc. rewrite app_nil_r. split; [reflexivity | exact Hacc].
  - cbn [group_wires].
    replace (done ++ wire :: rest) with ((done ++ [wire]) ++ rest)
      by (rewrite <- app_assoc; reflexivity).
    destruct (length (SignalROI (target wire)) =? 0)%nat eqn:Hlen.
    + apply IH, grouped_skip; [|exact Hacc]. unfold has_roi. rewrite Hlen. reflexivity.
    + unfold Cpp.bind, GetApaView.
      destruct (Z.eqb_spec (to_unsigned (fNChanPerApa m)) 0) as [E|_]; [contradiction|].
      unfold Cpp.ret at 1.
      apply (IH (done ++ [wire])). apply (grouped_push_back m done wire acc); [|exact Hacc].
      unfold has_roi. rewrite Hlen. reflexivity.
Qed.

(** X12: with a non-zero divisor the pre-filter loop of [produce]
    returns a map whose keys are strictly increasing, that holds under each
    key exactly the wires with a region of interest and this (APA, view),
    in their order in the wire list and at least one of them, and that has
    a key for every wire with a region of interest; the event and standard
    output are not touched. *)
Theorem group_wires_groups (m : Finder) (wirelist : list WirePtr) (io : Env) :
  to_unsigned (fNChanPerApa m) <> 0 ->
  exists groups,
    group_wires m wirelist [] io = Returns groups io
    /\ grouped m wirelist groups.
Proof.
  intros Hdiv.
  apply (group_wires_grouped m wirelist [] [] io Hdiv).
  split; [constructor | split; [constructor | intros w []%elem_of_nil]].
Qed.

Lemma group_wires_groups_witness :
  exists groups,
    group_wires (sample_finder 0 2560) (fill_ptr_vector sample_wires) [] sample_world
    = Returns groups sample_world
    /\ grouped (sample_finder 0 2560) (fill_ptr_vector sample_wires) groups.
Proof.
  apply (group_wires_groups (sample_finder 0 2560) (fill_ptr_vector sample_wires)
           sample_world).
  discriminate.
Defined.

(** *** [produce] as a whole *)

Lemma group_wires_undefined (m : Finder) (wirelist : list WirePtr) :
  to_unsigned (fNChanPerApa m) = 0 ->
  (exists wire, wire ∈ wirelist /\ SignalROI (target wire) <> []) ->
  forall acc io, group_wires m wirelist acc io = Undefined.
Proof.
  intros Hdiv. induction wirelist as [|wire rest IH]; intros (w & Hin & Hroi) acc io.
  - apply elem_of_nil in Hin as [].
  - cbn [group_wires]. destruct (SignalROI (target wire)) as [|r rs] eqn:E; simpl.
    + apply IH. exists w. split; [|exact Hroi].
      apply elem_of_cons in Hin as [->|Hin]; [congruence|exact Hin].
    + unfold Cpp.bind, GetApaView. rewrite Hdiv. reflexivity.
Qed.

(** X13: with a channels-per-APA divisor that is 0 as an unsigned number,
    [produce] has undefined behaviour on every event whose wire collection
    holds a wire with a region of interest: the division in [GetApaView]
    is reached. *)
Theorem produce_zero_divisor_undefined (m : Finder) (io : Env) (ws : list Wire) (w : Wire) :
  to_unsigned (fNChanPerApa m) = 0 ->
  wires_by_label (evt io) !! fWireProducerLabel m = Some ws ->
  w ∈ ws -> SignalROI w <> [] ->
  produce m io = Undefined.
Proof.
  intros Hdiv Hws Hin Hroi. unfold produce, getWires.
  unfold Cpp.bind at 1. unfold Cpp.bind at 1. unfold Cpp.get, Cpp.ret at 1.
  rewrite Hws. unfold Cpp.bind at 1.
  assert (Hsay : exists io1,
             (if 3 <=? fLogLevel m
              then Cpp.bind
                     (say ("==================================================" +:+ endl))
                     (fun _ => say ("WireProducerLabel: " +:+ fWireProducerLabel m +:+ endl))
              else Cpp.ret tt) io = Returns tt io1).
  { destruct (3 <=? fLogLevel m); eexists; reflexivity. }
  destruct Hsay as [io1 ->]. unfold Cpp.bind at 1.
  rewrite group_wires_undefined; [reflexivity|exact Hdiv|].
  apply list_elem_of_lookup in Hin as [i Hi].
  exists (MkWirePtr i w). split; [|exact Hroi].
  unfold fill_ptr_vector. apply list_elem_of_lookup. exists i.
  rewrite list_lookup_imap, Hi. reflexivity.
Qed.

Lemma produce_zero_divisor_undefined_witness :
  produce (sample_finder 0 0) sample_world = Undefined.
Proof.
  apply (produce_zero_divisor_undefined (sample_finder 0 0) sample_world sample_wires
           (MkWire 2561 0 [MkRange 10 20])).
  - reflexivity.
  - reflexivity.
  - left.
  - discriminate.
Defined.

Lemma group_wires_same_env (m : Finder) (wirelist : list WirePtr) :
  forall acc io groups io',
    group_wires m wirelist acc io = Returns groups io' -> io' = io.
Proof.
  induction wirelist as [|wire rest IH]; intros acc io groups io'; cbn [group_wires].
  - intros [= _ <-]. reflexivity.
  - destruct (_ =? _)%nat; [apply IH|].
    unfold Cpp.bind, GetApaView. destruct (_ =? 0); [discriminate|]. apply IH.
Qed.

Lemma sort_entries_quiet (m : Finder) (entries : list (ApaView * list WirePtr)) :
  fLogLevel m < 3 ->
  forall io sorted io', sort_entries m entries io = Returns sorted io' -> io' = io.
Proof.
  intros Hlog. induction entries as [|p rest IH]; intros io sorted io'; cbn [sort_entries].
  - intros [= _ <-]. reflexivity.
  - unfold sort_entry. destruct (Z.leb_spec 3 (fLogLevel m)); [lia|].
    unfold Cpp.bind at 1. unfold Cpp.bind at 1. unfold Cpp.ret at 1 2.
    unfold Cpp.bind at 1.
    destruct (sort_entries m rest io) as [sorted' io1| |] eqn:E; try discriminate.
    intros [= _ <-]. eapply IH. exact E.
Qed.

(** X14: below log level 3 [produce] writes nothing to standard output:
    when it returns, the output is as before and the event differs by
    the one empty collection only. *)
Theorem produce_quiet (m : Finder) (io io' : Env) :
  fLogLevel m < 3 ->
  produce m io = Returns tt io' ->
  out io' = out io
  /\ evt io' = MkEvent (wires_by_label (evt io)) (put_wires (evt io) ++ [[]]).
Proof.
  intros Hlog. unfold produce, getWires.
  destruct (Z.leb_spec 3 (fLogLevel m)); [lia|].
  unfold Cpp.bind at 1. unfold Cpp.bind at 1. unfold Cpp.get, Cpp.ret at 1.
  unfold Cpp.bind at 1. unfold Cpp.ret at 1. unfold Cpp.bind at 1.
  destruct (group_wires _ _ _ _) as [groups io1| |] eqn:Hg; try discriminate.
  apply group_wires_same_env in Hg as ->.
  unfold Cpp.bind at 1.
  destruct (sort_entries _ _ _) as [sorted io2| |] eqn:Hs; try discriminate.
  apply (sort_entries_quiet m _ Hlog) in Hs as ->.
  unfold e_put, Cpp.modify. intros [= <-]. split; reflexivity.
Qed.

Lemma produce_quiet_witness :
  out (MkEnv (MkEvent (wires_by_label (evt sample_world)) [[]]) []) = out sample_world
  /\ evt (MkEnv (MkEvent (wires_by_label (evt sample_world)) [[]]) [])
     = MkEvent (wires_by_label (evt sample_world)) (put_wires (evt sample_world) ++ [[]]).
Proof.
  apply (produce_quiet (sample_finder 0 2560) sample_world
           (MkEnv (MkEvent (wires_by_label (evt sample_world)) [[]]) [])).
  - simpl. lia.
  - reflexivity.
Defined.

Lemma sorted_by_channel (vec : list WirePtr) (increasing : bool) :
  SortWirePtrByChannel vec increasing ≡ₚ vec
  /\ StronglySorted (by_channel increasing) (SortWirePtrByChannel vec increasing).
Proof.
  unfold SortWirePtrByChannel, by_channel.
  destruct increasing; apply insertion_sort; intros; lia.
Qed.

Lemma sort_entry_outcome (m : Finder) (p : ApaView * list WirePtr) (io : Env) :
  exists vec io',
    sort_entry m p io = Returns (p.1, SortWirePtrByChannel vec true) io'
    /\ evt io' = evt io /\ vec ≡ₚ p.2.
Proof.
  unfold sort_entry. destruct (3 <=? fLogLevel m).
  - eexists _, _. split; [reflexivity|]. split; [reflexivity|].
    rewrite (proj1 (sorted_by_channel _ true)).
    apply (proj1 (sorted_by_channel _ false)).
  - eexists _, _. split; [reflexivity|]. split; reflexivity.
Qed.

(** X15: the loop of [produce] over the map always returns and leaves the
    event as it was; at every log level it leaves each key with the same
    wires as before (none lost, none added), ordered so that the channels
    never decrease. *)
Theorem sort_entries_sorted (m : Finder) (entries : list (ApaView * list WirePtr)) (io : Env) :
  exists sorted io',
    sort_entries m entries io = Returns sorted io'
    /\ evt io' = evt io
    /\ Forall2 (fun p p' => p'.1 = p.1 /\ p'.2 ≡ₚ p.2
                            /\ StronglySorted (by_channel true) p'.2)
               entries sorted.
Proof.
  revert io. induction entries as [|p rest IH]; intros io; cbn [sort_entries].
  - exists [], io. repeat split. constructor.
  - destruct (sort_entry_outcome m p io) as (vec & io1 & Hone & Hev1 & Hperm).
    destruct (IH io1) as (sorted & io2 & Hrest & Hev2 & Hall).
    exists ((p.1, SortWirePtrByChannel vec true) :: sorted), io2.
    unfold Cpp.bind at 1. rewrite Hone. unfold Cpp.bind at 1. rewrite Hrest.
    split; [reflexivity|]. split; [congruence|].
    constructor; [|exact Hall]. simpl.
    destruct (sorted_by_channel vec true) as [Hp Hs].
    split; [reflexivity|]. split; [rewrite Hp; exact Hperm | exact Hs].
Qed.

End WireGroupFacts.

(** ** The score checker *)

Module CheckCNNScoreFacts.

Import CheckCNNScore.

Example analyze_sample :
  exists b, analyze sample_event (sample_analyzer ["el"; "inel"; "none"]) = Returns tt b
            /\ length (ftree b) = 1%nat /\ channel b = [2000].
Proof. eexists. split; [reflexivity|]. split; reflexivity. Qed.

Lemma push_score_outcome r out i name a b :
  push_score r out i name a = Returns tt b ->
  exists column index score,
    scores a !! i = Some column /\ reader_getIndex r name = inr index
    /\ out !! index = Some score
    /\ b = set_scores (<[i := column ++ [score]]> (scores a)) a.
Proof.
  unfold push_score. run_cpp.
  destruct (scores a !! i) as [column|] eqn:Hc; simpl; [|discriminate].
  destruct (reader_getIndex r name) as [ex|index] eqn:Hi; simpl; [discriminate|].
  destruct (out !! index) as [score|] eqn:Hs; simpl; [|discriminate].
  intros [= <-]. eauto 10.
Qed.

Lemma push_scores_outcome r out names : forall i a b,
  push_scores r out i names a = Returns tt b ->
  b = set_scores (scores b) a
  /\ length (scores b) = length (scores a)
  /\ (names <> [] -> (i + length names <= length (scores a))%nat)
  /\ (forall p, (p < i \/ i + length names <= p)%nat -> scores b !! p = scores a !! p)
  /\ forall j name, names !! j = Some name ->
       exists column index score,
         scores a !! (i + j)%nat = Some column
         /\ reader_getIndex r name = inr index
         /\ out !! index = Some score
         /\ scores b !! (i + j)%nat = Some (column ++ [score]).
Proof.
  induction names as [|name rest IH]; intros i a b Hrun.
  - simpl in Hrun. injection Hrun as <-. simpl.
    split; [destruct a; reflexivity|]. split; [reflexivity|].
    split; [intros E; contradiction|].
    split; [reflexivity|intros j name' Hj; discriminate].
  - cbn [push_scores] in Hrun. unfold Cpp.bind in Hrun.
    destruct (push_score r out i name a) as [[] a1| |] eqn:Hone; try discriminate.
    apply push_score_outcome in Hone as (column & index & score & Hc & Hi & Hs & ->).
    apply IH in Hrun as (Hb & Hlen & Hfit & Hframe & Hnew).
    cbn [scores set_scores] in *. rewrite length_insert in *.
    pose proof (lookup_lt_Some _ _ _ Hc) as Hlt.
    split; [rewrite Hb; destruct a; reflexivity|].
    split; [exact Hlen|].
    split.
    { intros _. destruct rest as [|name' rest'].
      - simpl. lia.
      - specialize (Hfit ltac:(discriminate)). simpl in *. lia. }
    split.
    { intros p Hp. simpl in Hp. rewrite Hframe by lia.
      apply list_lookup_insert_ne. lia. }
    intros [|j] name' Hj.
    + injection Hj as <-. rewrite Nat.add_0_r.
      exists column, index, score. repeat split; try assumption.
      rewrite Hframe by lia. apply list_lookup_insert_eq. exact Hlt.
    + simpl in Hj. destruct (Hnew _ _ Hj) as (column' & index' & score' & Hc' & Hi' & Hs' & Hb').
      exists column', index', score'.
      replace (i + S j)%nat with (S i + j)%nat by lia.
      repeat split; try assumption.
      rewrite list_lookup_insert_ne in Hc' by lia. exact Hc'.
Qed.

Lemma analyze_hit_outcome r hit a b :
  analyze_hit r hit a = Returns tt b ->
  if hit_Plane hit.2 =? 2
  then push_scores r (reader_getOutput r hit.1) 0 (fNNOutputs a) (push_hit hit.2 a)
       = Returns tt b
  else b = a.
Proof.
  unfold analyze_hit. destruct (hit_Plane hit.2 =? 2).
  - run_cpp. intros E. exact E.
  - run_cpp. intros [= <-]. reflexivity.
Qed.

Lemma loop_outcome r hits : forall a b,
  for_each hits (analyze_hit r) a = Returns tt b ->
  let sel := List.filter (fun hit => hit_Plane hit.2 =? 2) hits in
  same_job a b
  /\ appended sel a b
  /\ length (scores b) = length (scores a)
  /\ (sel <> [] -> (length (fNNOutputs a) <= length (scores a))%nat)
  /\ (forall p, (length (fNNOutputs a) <= p)%nat -> scores b !! p = scores a !! p)
  /\ forall j name column,
       fNNOutputs a !! j = Some name -> scores a !! j = Some column ->
       exists values,
         scores b !! j = Some (column ++ values)
         /\ length values = length sel
         /\ forall index, reader_getIndex r name = inr index ->
              Some <$> values = (fun hit => reader_getOutput r hit.1 !! index) <$> sel.
Proof.
  induction hits as [|hit rest IH]; intros a b Hrun.
  - simpl in Hrun. injection Hrun as <-. simpl.
    split; [repeat split|]. split; [repeat split; symmetry; apply app_nil_r|].
    split; [reflexivity|]. split; [intros E; contradiction|].
    split; [reflexivity|].
    intros j name column _ Hc. exists []. rewrite app_nil_r. auto.
  - cbn [for_each] in Hrun. unfold Cpp.bind in Hrun.
    destruct (analyze_hit r hit a) as [[] a1| |] eqn:Hone; try discriminate.
    apply analyze_hit_outcome in Hone.
    apply IH in Hrun. clear IH. cbv zeta in *.
    destruct Hrun as (Hjob & Happ & Hlen & Hfit & Hframe & Hnew).
    cbn [List.filter].
    destruct (hit_Plane hit.2 =? 2) eqn:Hplane.
    + apply push_scores_outcome in Hone as (Ha1 & Hlen1 & Hfit1 & Hframe1 & Hnew1).
      cbn [scores push_hit] in *.
      assert (Hout : fNNOutputs a1 = fNNOutputs a) by (rewrite Ha1; reflexivity).
      rewrite Hout in *.
      split.
      { destruct Hjob as (? & ? & ? & ? & ? & ? & ?).
        repeat split; etrans; try eassumption; rewrite Ha1; reflexivity. }
      split.
      { destruct Happ as (? & ? & ? & ? & ? & ?). unfold appended.
        rewrite !fmap_cons, !(cons_middle _ (_ ++ _)) || idtac.
        repeat split; etrans; try eassumption; rewrite Ha1; cbn;
          rewrite <- app_assoc; reflexivity. }
      split; [congruence|].
      split.
      { intros _. destruct (fNNOutputs a) as [|n ns] eqn:E; [simpl; lia|].
        specialize (Hfit1 ltac:(discriminate)). simpl in *. lia. }
      split.
      { intros p Hp. rewrite Hframe by exact Hp. apply Hframe1. lia. }
      intros j name column Hj Hc.
      destruct (Hnew1 _ _ Hj) as (column' & index & score & Hc' & Hi & Hs & Hb).
      simpl in Hc', Hb. rewrite Hc in Hc'. injection Hc' as <-.
      destruct (Hnew _ _ _ Hj Hb) as (values & Hv & Hvl & Hvs).
      exists (score :: values). rewrite <- app_assoc in Hv.
      split; [exact Hv|]. split; [simpl; congruence|].
      intros index' Hi'. rewrite Hi in Hi'. injection Hi' as <-.
      rewrite !fmap_cons. simpl. rewrite Hs. f_equal. apply Hvs. exact Hi.
    + subst a1. split; [exact Hjob|]. split; [exact Happ|]. auto.
Qed.

Lemma analyze_outcome e a b :
  analyze e a = Returns tt b ->
  exists r b0,
    results_by_label e (fNNetModuleLabel a) = inr r
    /\ for_each (hitlist_of e (fHitsModuleLabel a)) (analyze_hit r) (start_event e a)
       = Returns tt b0
    /\ b = match channel b0 with [] => b0 | _ => Fill b0 end.
Proof.
  unfold analyze. run_cpp.
  destruct (results_by_label e (fNNetModuleLabel a)) as [ex|r]; [discriminate|].
  destruct (for_each _ _ _) as [[] b0| |] eqn:Hloop; try discriminate.
  intros E. exists r, b0. split; [reflexivity|]. split; [exact Hloop|].
  destruct (channel b0); injection E as <-; reflexivity.
Qed.

Lemma channel_empty sel a b :
  appended sel a b -> channel a = [] -> (channel b = [] <-> sel = []).
Proof.
  intros (Hc & _) Ha. rewrite Hc, Ha. simpl. split.
  - apply fmap_nil_inv.
  - intros ->. reflexivity.
Qed.

Lemma filled_columns b0 :
  let b := match channel b0 with [] => b0 | _ => Fill b0 end in
  channel b = channel b0 /\ tpc b = tpc b0 /\ plane b = plane b0
  /\ wire b = wire b0 /\ charge b = charge b0 /\ peakt b = peakt b0
  /\ scores b = scores b0 /\ run b = run b0 /\ subrun b = subrun b0
  /\ event b = event b0 /\ row_of b = row_of b0.
Proof. destruct (channel b0) eqn:E; cbv zeta; simpl; rewrite ?E; repeat split. Qed.

Lemma analyze_stores_plane2_core e a b :
  analyze e a = Returns tt b ->
  let sel := plane2 e (fHitsModuleLabel a) in
  channel b = (fun hit => to_short (hit_Channel hit.2)) <$> sel
  /\ tpc b = (fun hit => to_short (hit_TPC hit.2)) <$> sel
  /\ plane b = (fun hit => to_short (hit_Plane hit.2)) <$> sel
  /\ wire b = (fun hit => to_short (hit_Wire hit.2)) <$> sel
  /\ charge b = (fun hit => hit_Integral hit.2) <$> sel
  /\ peakt b = (fun hit => hit_PeakTime hit.2) <$> sel.
Proof.
  intros Hrun. apply analyze_outcome in Hrun as (r & b0 & _ & Hloop & ->).
  apply loop_outcome in Hloop as (_ & Happ & _). cbv zeta in *.
  destruct Happ as (H1 & H2 & H3 & H4 & H5 & H6).
  destruct (filled_columns b0) as (-> & -> & -> & -> & -> & -> & _).
  unfold plane2. repeat split; assumption.
Qed.

(** X16: after [analyze] has returned, the six hit columns hold exactly
    the hits of plane 2 of the event's hit collection, in the order of
    the collection, with channel, TPC, plane and wire narrowed to
    [short]; nothing of the previous event is left in them, and the
    event numbers are those of the event. *)
Theorem analyze_stores_plane2 (e : Event) (a b : Analyzer) :
  analyze e a = Returns tt b ->
  let sel := plane2 e (fHitsModuleLabel a) in
  channel b = (fun hit => to_short (hit_Channel hit.2)) <$> sel
  /\ tpc b = (fun hit => to_short (hit_TPC hit.2)) <$> sel
  /\ plane b = (fun hit => to_short (hit_Plane hit.2)) <$> sel
  /\ wire b = (fun hit => to_short (hit_Wire hit.2)) <$> sel
  /\ charge b = (fun hit => hit_Integral hit.2) <$> sel
  /\ peakt b = (fun hit => hit_PeakTime hit.2) <$> sel
  /\ run b = to_int (e_run e) /\ subrun b = to_int (e_subRun e)
  /\ event b = to_int (e_event e).
Proof.
  intros Hrun. apply analyze_outcome in Hrun as (r & b0 & _ & Hloop & ->).
  apply loop_outcome in Hloop as (Hjob & Happ & _). cbv zeta in *.
  destruct Hjob as (_ & _ & _ & _ & Hr & Hs & He).
  destruct Happ as (H1 & H2 & H3 & H4 & H5 & H6).
  destruct (filled_columns b0) as (-> & -> & -> & -> & -> & -> & _ & -> & -> & -> & _).
  unfold plane2. repeat split; assumption.
Qed.

Lemma analyze_stores_plane2_witness :
  channel sample_result = [2000].
Proof.
  exact (proj1 (analyze_stores_plane2 sample_event (sample_analyzer three_outputs)
                  sample_result eq_refl)).
Defined.

(** X17: after [analyze] has returned, the score column of the [j]-th
    configured output name holds, for each plane-2 hit in order, the
    entry of that hit's score array at the index the reader gives for the
    name. *)
Theorem analyze_scores (e : Event) (a b : Analyzer) (r : MVAReader)
    (j : nat) (name : string) (index : nat) :
  analyze e a = Returns tt b ->
  results_by_label e (fNNetModuleLabel a) = inr r ->
  fNNOutputs a !! j = Some name ->
  reader_getIndex r name = inr index ->
  (j < 4)%nat ->
  exists column,
    scores b !! j = Some column
    /\ Some <$> column
       = (fun hit => reader_getOutput r hit.1 !! index) <$> plane2 e (fHitsModuleLabel a).
Proof.
  intros Hrun Hr Hj Hi Hlt.
  apply analyze_outcome in Hrun as (r' & b0 & Hr' & Hloop & ->).
  rewrite Hr in Hr'. injection Hr' as <-.
  apply loop_outcome in Hloop as (_ & _ & _ & _ & _ & Hnew). cbv zeta in Hnew.
  destruct (Hnew j name [] Hj) as (values & Hv & _ & Hvs).
  { cbn [start_event scores]. do 4 (destruct j as [|j]; [reflexivity|]). lia. }
  destruct (filled_columns b0) as (_ & _ & _ & _ & _ & _ & -> & _).
  exists values. split; [exact Hv|]. apply Hvs. exact Hi.
Qed.

Lemma analyze_scores_witness :
  exists column,
    scores sample_result !! 0%nat = Some column
    /\ Some <$> column = [Some (Float32.of_Z 1)].
Proof.
  exact (analyze_scores sample_event (sample_analyzer three_outputs) sample_result
           sample_reader 0 "el" 0 eq_refl eq_refl eq_refl eq_refl ltac:(lia)).
Defined.

(** X18: after [analyze] has returned, the six hit columns and the score
    columns of the configured outputs all have one entry per plane-2 hit
    of the event, and the score columns beyond the configured outputs are
    empty: the branches of one tree entry have equal lengths. *)
Theorem analyze_aligned (e : Event) (a b : Analyzer) :
  analyze e a = Returns tt b ->
  aligned_columns (length (fNNOutputs a)) (length (plane2 e (fHitsModuleLabel a))) b.
Proof.
  intros Hrun.
  destruct (analyze_stores_plane2_core e a b Hrun) as (H1 & H2 & H3 & H4 & H5 & H6).
  apply analyze_outcome in Hrun as (r & b0 & _ & Hloop & ->).
  apply loop_outcome in Hloop as (_ & _ & Hlen & _ & Hframe & Hnew). cbv zeta in *.
  unfold aligned_columns.
  rewrite H1, H2, H3, H4, H5, H6, !length_fmap.
  destruct (filled_columns b0) as (_ & _ & _ & _ & _ & _ & -> & _).
  do 6 (split; [reflexivity|]). split; [exact Hlen|].
  intros i column Hc. cbn [start_event scores fNNOutputs] in *.
  pose proof (lookup_lt_Some _ _ _ Hc) as Hi. rewrite Hlen in Hi. simpl in Hi.
  destruct (i <? length (fNNOutputs a))%nat eqn:Hout.
  - apply Nat.ltb_lt in Hout.
    destruct (lookup_lt_is_Some_2 (fNNOutputs a) i Hout) as [name Hname].
    destruct (Hnew i name [] Hname) as (values & Hv & Hvl & _).
    { do 4 (destruct i as [|i]; [reflexivity|]). lia. }
    rewrite Hc in Hv. injection Hv as ->. exact Hvl.
  - apply Nat.ltb_ge in Hout. rewrite Hframe in Hc by exact Hout.
    do 4 (destruct i as [|i]; [injection Hc as <-; reflexivity|]). lia.
Qed.

Lemma analyze_aligned_witness :
  aligned_columns 3 1 sample_result.
Proof.
  exact (analyze_aligned sample_event (sample_analyzer three_outputs) sample_result eq_refl).
Defined.

(** X19: [analyze] fills the tree at most once per event: it appends one
    entry, holding the columns as they are on return, when the event has
    a hit in plane 2, and leaves the tree as it was otherwise. *)
Theorem analyze_fills_once (e : Event) (a b : Analyzer) :
  analyze e a = Returns tt b ->
  ftree b = match plane2 e (fHitsModuleLabel a) with
            | [] => ftree a
            | _ => ftree a ++ [row_of b]
            end.
Proof.
  intros Hrun. apply analyze_outcome in Hrun as (r & b0 & _ & Hloop & ->).
  apply loop_outcome in Hloop as (Hjob & Happ & _). cbv zeta in *.
  destruct Hjob as (_ & _ & _ & Ht & _).
  pose proof (channel_empty _ _ _ Happ eq_refl) as Hempty.
  destruct (filled_columns b0) as (_ & _ & _ & _ & _ & _ & _ & _ & _ & _ & ->).
  unfold plane2. cbn [start_event ftree] in Ht.
  destruct (channel b0) eqn:E.
  - rewrite (proj1 Hempty eq_refl). exact Ht.
  - destruct (List.filter _ _) eqn:F.
    + destruct Hempty as [_ Hempty]. specialize (Hempty eq_refl). discriminate.
    + cbn [Fill ftree]. rewrite Ht. reflexivity.
Qed.

Lemma analyze_fills_once_witness :
  ftree sample_result = [row_of sample_result].
Proof.
  exact (analyze_fills_once sample_event (sample_analyzer three_outputs) sample_result eq_refl).
Defined.

(** X20: the score columns are an array of four: with more than four
    configured output names, [analyze] does not return on any event that
    has a hit in plane 2 (the fifth name indexes past the array). *)
Theorem analyze_overruns (e : Event) (a b : Analyzer) :
  (4 < length (fNNOutputs a))%nat ->
  plane2 e (fHitsModuleLabel a) <> [] ->
  analyze e a <> Returns tt b.
Proof.
  intros Hmany Hhit Hrun.
  apply analyze_outcome in Hrun as (r & b0 & _ & Hloop & _).
  apply loop_outcome in Hloop as (_ & _ & _ & Hfit & _). cbv zeta in Hfit.
  specialize (Hfit Hhit). cbn [start_event fNNOutputs scores] in Hfit. simpl in Hfit. lia.
Qed.

Lemma analyze_overruns_witness :
  analyze sample_event (sample_analyzer five_outputs) <> Returns tt sample_result.
Proof.
  apply (analyze_overruns sample_event (sample_analyzer five_outputs) sample_result).
  - simpl. lia.
  - discriminate.
Defined.

Lemma push_scores_returns r out names : forall i a,
  (i + length names <= length (scores a))%nat ->
  (forall name, name ∈ names ->
     exists index, reader_getIndex r name = inr index /\ (index < length out)%nat) ->
  exists b, push_scores r out i names a = Returns tt b.
Proof.
  induction names as [|name rest IH]; intros i a Hfit Hnames.
  - eexists. reflexivity.
  - simpl in Hfit.
    destruct (Hnames name) as (index & Hi & Hlt); [left|].
    destruct (lookup_lt_is_Some_2 (scores a) i) as [column Hc]; [lia|].
    destruct (lookup_lt_is_Some_2 out index Hlt) as [score Hs].
    cbn [push_scores]. unfold Cpp.bind at 1. unfold push_score. run_cpp.
    rewrite Hc. simpl. rewrite Hi. simpl. rewrite Hs. simpl.
    apply IH.
    + cbn [set_scores scores]. rewrite length_insert. lia.
    + intros name' Hin. apply Hnames. right. exact Hin.
Qed.

Lemma loop_returns r hits : forall a,
  serves r (fNNOutputs a) ->
  (length (fNNOutputs a) <= length (scores a))%nat ->
  exists b, for_each hits (analyze_hit r) a = Returns tt b.
Proof.
  induction hits as [|hit rest IH]; intros a Hserves Hfit.
  - eexists. reflexivity.
  - cbn [for_each]. unfold Cpp.bind.
    assert (Hone : exists a1, analyze_hit r hit a = Returns tt a1).
    { unfold analyze_hit. destruct (hit_Plane hit.2 =? 2); [|eexists; reflexivity].
      run_cpp.
      apply push_scores_returns.
      - cbn [push_hit scores]. lia.
      - intros name Hin. destruct Hserves as [Hfour Hknown].
        destruct (Hknown name Hin) as (index & Hi & Hlt).
        exists index. rewrite Hfour. auto. }
    destruct Hone as [a1 Hone]. rewrite Hone.
    assert (Hrun1 : for_each [hit] (analyze_hit r) a = Returns tt a1).
    { cbn [for_each]. unfold Cpp.bind. rewrite Hone. reflexivity. }
    apply loop_outcome in Hrun1 as (Hjob & _ & Hlen & _).
    destruct Hjob as (_ & _ & Hout & _).
    apply IH; rewrite Hout; [exact Hserves|]. rewrite Hlen. exact Hfit.
Qed.

(** X21: [analyze] returns whenever the reader can be made for the event,
    gives arrays of four scores, knows every configured output name, and
    at most four names are configured. *)
Theorem analyze_returns (e : Event) (a : Analyzer) (r : MVAReader) :
  results_by_label e (fNNetModuleLabel a) = inr r ->
  serves r (fNNOutputs a) ->
  (length (fNNOutputs a) <= 4)%nat ->
  exists b, analyze e a = Returns tt b.
Proof.
  intros Hr Hserves Hfew.
  destruct (loop_returns r (hitlist_of e (fHitsModuleLabel a)) (start_event e a))
    as [b0 Hloop]; [exact Hserves|exact Hfew|].
  unfold analyze. run_cpp. rewrite Hr. rewrite Hloop.
  destruct (channel b0); eexists; reflexivity.
Qed.

Lemma sample_reader_serves : serves sample_reader three_outputs.
Proof.
  split; [reflexivity|].
  intros name Hin. apply list_elem_of_In in Hin.
  destruct Hin as [<-|[<-|[<-|[]]]]; eexists; (split; [reflexivity|lia]).
Qed.

Lemma analyze_returns_witness :
  exists b, analyze sample_event (sample_analyzer three_outputs) = Returns tt b.
Proof.
  apply (analyze_returns sample_event (sample_analyzer three_outputs) sample_reader).
  - reflexivity.
  - exact sample_reader_serves.
  - simpl. lia.
Defined.

Lemma push_scores_throws r out names : forall i a ex b,
  push_scores r out i names a = Throws ex b -> ftree b = ftree a.
Proof.
  induction names as [|name rest IH]; intros i a ex b Hrun; [discriminate|].
  cbn [push_scores] in Hrun. unfold Cpp.bind at 1 in Hrun.
  destruct (push_score r out i name a) as [[] a1|ex1 a1|] eqn:Hone; try discriminate.
  - apply push_score_outcome in Hone as (column & index & score & _ & _ & _ & ->).
    apply IH in Hrun. exact Hrun.
  - injection Hrun as <- <-. revert Hone. unfold push_score. run_cpp.
    destruct (scores a !! i); simpl; [|discriminate].
    destruct (reader_getIndex r name); simpl; [intros [= _ <-]; reflexivity|].
    destruct (out !! _); discriminate.
Qed.

Lemma loop_throws r hits : forall a ex b,
  for_each hits (analyze_hit r) a = Throws ex b -> ftree b = ftree a.
Proof.
  induction hits as [|hit rest IH]; intros a ex b Hrun; [discriminate|].
  cbn [for_each] in Hrun. unfold Cpp.bind in Hrun.
  destruct (analyze_hit r hit a) as [[] a1|ex1 a1|] eqn:Hone; try discriminate.
  - assert (Hrun1 : for_each [hit] (analyze_hit r) a = Returns tt a1).
    { cbn [for_each]. unfold Cpp.bind. rewrite Hone. reflexivity. }
    apply loop_outcome in Hrun1 as ((_ & _ & _ & Ht & _) & _).
    rewrite <- Ht. eapply IH. exact Hrun.
  - injection Hrun as <- <-. revert Hone. unfold analyze_hit.
    destruct (hit_Plane hit.2 =? 2); [|discriminate].
    run_cpp. intros Hone. apply push_scores_throws in Hone. exact Hone.
Qed.

(** X22: an exception leaving [analyze] (from the construction of the
    reader, or from an output name the reader does not know) leaves the
    tree without a new entry. *)
Theorem analyze_throws_no_fill (e : Event) (a b : Analyzer) (ex : exception) :
  analyze e a = Throws ex b -> ftree b = ftree a.
Proof.
  unfold analyze. run_cpp.
  destruct (results_by_label e (fNNetModuleLabel a)) as [ex'|r].
  - intros [= _ <-]. reflexivity.
  - destruct (for_each _ _ _) as [[] b0|ex' b0|] eqn:Hloop; try discriminate.
    + destruct (channel b0); discriminate.
    + intros [= _ <-]. apply loop_throws in Hloop. exact Hloop.
Qed.

Lemma analyze_throws_no_fill_witness :
  ftree unknown_output_state = [].
Proof.
  exact (analyze_throws_no_fill sample_event (sample_analyzer ["el"; "michel"])
           unknown_output_state (Exception "MVAReader" "michel") eq_refl).
Defined.

End CheckCNNScoreFacts.

(** ** Successive patch queries *)

Module PatchQueryFacts.

Import Float32 PointIdAlg PatchQueries.

Lemma own_hit (a : Members) (wire sd : Z) (drift : float) (s : State) :
  fDownscaleFullView a = true ->
  scaledDrift a drift = Some sd ->
  at_cell wire sd s = true ->
  bufferPatch_own a wire drift s = Returns true s.
Proof.
  intros Hd Hsd Hat. unfold at_cell in Hat.
  unfold bufferPatch_own, bufferPatch. rewrite Hd. run_cpp. rewrite Hsd. simpl.
  rewrite Hat. simpl. destruct s; reflexivity.
Qed.

Lemma own_miss (a : Members) (wire sd : Z) (drift : float) (s : State) :
  fDownscaleFullView a = true ->
  scaledDrift a drift = Some sd ->
  at_cell wire sd s = false ->
  exists flag, bufferPatch_own a wire drift s = Returns flag (extracted a wire sd drift s).
Proof.
  intros Hd Hsd Hat. unfold at_cell in Hat.
  unfold bufferPatch_own, bufferPatch, extract. rewrite Hd. run_cpp. rewrite Hsd. simpl.
  rewrite Hat. simpl. eexists. reflexivity.
Qed.

Lemma at_cell_extracted a wire sd drift s : at_cell wire sd (extracted a wire sd drift s) = true.
Proof. unfold at_cell. simpl. rewrite !Z.eqb_refl. reflexivity. Qed.

Lemma query_all_hits (a : Members) (wire sd : Z) (points : list (Z * float)) (s : State) :
  fDownscaleFullView a = true ->
  Forall (in_cell a wire sd) points ->
  at_cell wire sd s = true ->
  query_all a points s = Returns tt s.
Proof.
  intros Hd Hall Hat. induction Hall as [|point rest [Hw Hsd] _ IH]; [reflexivity|].
  unfold query_all. cbn [for_each]. unfold Cpp.bind at 1. unfold Cpp.bind at 1.
  rewrite Hw, (own_hit a wire sd _ s Hd Hsd Hat). exact IH.
Qed.

(** X23: with downscaling, any run of queries that all fall on one wire
    and in one drift bin costs at most one extraction: none if the
    cache is already positioned there, else exactly one, made for the
    first point of the run; the later points are answered from the
    buffer that extraction filled. *)
Theorem same_cell_queries_extract_once (a : Members) (wire sd : Z)
    (point : Z * float) (rest : list (Z * float)) (s : State) :
  fDownscaleFullView a = true ->
  Forall (in_cell a wire sd) (point :: rest) ->
  query_all a (point :: rest) s
  = Returns tt (if at_cell wire sd s then s else extracted a wire sd point.2 s).
Proof.
  intros Hd Hall. destruct (at_cell wire sd s) eqn:Hat.
  - apply (query_all_hits a wire sd); assumption.
  - apply Forall_cons in Hall as [[Hw Hsd] Hrest].
    destruct (own_miss a wire sd point.2 s Hd Hsd Hat) as [flag Hmiss].
    unfold query_all. cbn [for_each]. unfold Cpp.bind at 1. unfold Cpp.bind at 1.
    rewrite Hw, Hmiss.
    apply (query_all_hits a wire sd); [assumption..|apply at_cell_extracted].
Qed.

Lemma same_cell_queries_extract_once_witness :
  query_all (sample true) [(5, ten_and_a_half); (5, dyadic 23 1); (5, of_Z 7)] fresh
  = Returns tt (MkState 5 1 [] [MkExtraction DownsampledView 5 ten_and_a_half 32 44]).
Proof.
  apply (same_cell_queries_extract_once (sample true) 5 1 (5, ten_and_a_half)
           [(5, dyadic 23 1); (5, of_Z 7)] fresh eq_refl).
  repeat constructor.
Defined.

Lemma div_by_zero (x : float) : to_size_t (div x (of_Z 0)) = None.
Proof. destruct x as [[]|[]| |[] m e]; reflexivity. Qed.

(** X24: with downscaling and a drift window of 0, every query has
    undefined behaviour: the quotient is an infinity or a NaN, which
    the conversion to [size_t] does not cover. *)
Theorem zero_drift_window_undefined (a : Members) (wire : Z) (drift : float)
    (patch : Patch) (s : State) :
  fDownscaleFullView a = true ->
  fDriftWindow a = 0 ->
  bufferPatch a wire drift patch s = Undefined.
Proof.
  intros Hd Hw. unfold bufferPatch, scaledDrift. rewrite Hd, Hw, div_by_zero. reflexivity.
Qed.

Lemma zero_drift_window_undefined_witness :
  bufferPatch (MkMembers true 0 failing_extraction failing_extraction 32 44)
    5 ten_and_a_half [] fresh = Undefined.
Proof.
  exact (zero_drift_window_undefined
           (MkMembers true 0 failing_extraction failing_extraction 32 44)
           5 ten_and_a_half [] fresh eq_refl eq_refl).
Defined.

End PatchQueryFacts.
